(** * electron-ipc-proxy: the host side dispatcher ([src/server.ts])

    A shallow embedding of [registerProxy], [unregisterProxy] and the
    [ProxyServerHandler] class, together with the small part of the
    JavaScript run time they rely on: property reads with getters, calls with
    an explicit receiver, promises reduced to their outcome, rxjs
    subscriptions, the transport's listener table and the messages sent back
    to a renderer. *)

From Stdlib Require Import ZArith.
From stdpp Require Import gmap strings list fin_maps.

Open Scope string_scope.
Set Warnings "-register-all".

(** ** JavaScript values *)

(** Values that cross the transport. A number is an integer of the safe
    range, on which JavaScript's arithmetic is exact. *)
Inductive data :=
| DUndefined
| DNull
| DBool (b : bool)
| DNum (n : Z)
| DStr (s : string).

(** An [Error] object: the name of its class and its message. *)
Record error := MkError { name : string; message : string }.

(** [new Error(msg)] and the [TypeError] the engine raises. *)
Definition Error (msg : string) : error := MkError "Error" msg.
Definition TypeError (msg : string) : error := MkError "TypeError" msg.

(** How an evaluation ends: with a value or with a thrown error. *)
Inductive completion (A : Type) :=
| Return (a : A)
| Throw (e : error).
Arguments Return {A} a.
Arguments Throw {A} e.

(** What an observer is told. *)
Inductive notification :=
| OnNext (v : data)
| OnError (e : error)
| OnComplete.

(** An rxjs observable, as far as the dispatcher sees it: the notifications
    it delivers inside the call of [subscribe]. Whatever it emits later
    arrives as an event of its own (see [action]). *)
Record Observable := MkObservable { on_subscribe : list notification }.

(** A promise, as it stands when the code that received it has run:
    settled with a value or a reason, or still pending. What a pending
    promise does later is an event of its own (see [action]). *)
Inductive Promise :=
| Resolved (v : data)
| Rejected (e : error)
| Pending.

(** The data properties of an object; this is what a method sees of its
    receiver. *)
Abbreviation fields := (gmap string data).

(** A function value takes its receiver ([None] is [this === undefined], the
    receiver of an unbound call in strict code) and its arguments. *)
Inductive value :=
| VData (d : data)
| VPromise (p : Promise)
| VObservable (o : Observable)
| VFunction (f : option fields -> list data -> completion value).

Definition undefined : value := VData DUndefined.

(** A property that is not plain data: a stored value, or an accessor. *)
Inductive member :=
| Field (v : value)
| Getter (g : option fields -> completion value).

(** The target object handed to [registerProxy]: its data properties and
    the other properties a read of [target[propKey]] finds, its own or those
    of its prototype chain. *)
Record JSObject := MkObject {
  own : fields;
  members : gmap string member
}.

(** [obj[propKey]]: the receiver of an accessor is the object itself; a
    missing property reads as [undefined]. *)
Definition get_prop (obj : JSObject) (propKey : string) : completion value :=
  match own obj !! propKey with
  | Some d => Return (VData d)
  | None =>
      match members obj !! propKey with
      | Some (Field v) => Return v
      | Some (Getter g) => g (Some (own obj))
      | None => Return undefined
      end
  end.

(** [obj.propKey(...args)], the call that keeps [obj] as the receiver. *)
Definition call_method (obj : JSObject) (propKey : string) (args : list data)
  : completion value :=
  match get_prop obj propKey with
  | Return (VFunction f) => f (Some (own obj)) args
  | Return _ => Throw (TypeError (propKey ++ " is not a function"))
  | Throw e => Throw e
  end.

(** [function isFunction(value) { return value && typeof value === 'function' }] *)
Definition isFunction (v : value) : bool :=
  match v with
  | VFunction _ => true
  | _ => false
  end.

(** [function isObservable(value) { return value && typeof value.subscribe === 'function' }]:
    of the values above only an observable carries a callable [subscribe]. *)
Definition isObservable (v : value) : bool :=
  match v with
  | VObservable _ => true
  | _ => false
  end.

(** [function isPromise(value)] *)
Definition isPromise (v : value) : bool :=
  match v with
  | VPromise _ => true
  | _ => false
  end.

(** ** Wire protocol ([./common], of which only the names are imported) *)

(** Modelled from the spec: the request shapes of [src/common.ts], which is
    not among the sources. [args] of a subscribe request is optional;
    [OtherRequest] is a message whose [type] is none of the four. *)
Inductive Request :=
| GetRequest (propKey : string)
| ApplyRequest (propKey : string) (args : list data)
| SubscribeRequest (propKey : string) (args : option (list data)) (subscriptionId : string)
| UnsubscribeRequest (subscriptionId : string)
| OtherRequest (type : string).

(** Modelled from the spec: the descriptor of [src/common.ts], a channel name
    and the kind of each exposed property ([Value$] and [Function$] are
    spelled [ValueStream] and [FunctionStream]). The server reads only the
    channel. *)
Inductive ProxyPropertyType := Value | Function | ValueStream | FunctionStream.

Record ProxyDescriptor := MkDescriptor {
  channel : string;
  properties : gmap string ProxyPropertyType
}.

(** [Errio.stringify(error)]: the serialised error, kept as a wrapper. *)
Record serialized := Errio_stringify { Errio_parse : error }.

(** Messages sent back to a renderer, [{ type: ResponseType.X, ... }]. *)
Inductive Response :=
| Result (result : value)
| ErrorResponse (err : serialized)
| Next (v : data)
| Complete.

(** ** The state the module works on *)

(** [registrations] and [subscriptions] are created as [{}] and used as maps.
    Such an object inherits the properties of [Object.prototype]: under one
    of these names [obj[key]] finds, where the object has no property of its
    own, an inherited function (for [__proto__] the prototype itself), which
    is truthy and has no method [unsubscribe] or [unsubscribeAll]. The names
    are those of ECMAScript and its Annex B. *)
Definition Object_prototype : list string :=
  ["constructor"; "__defineGetter__"; "__defineSetter__"; "hasOwnProperty";
   "__lookupGetter__"; "__lookupSetter__"; "isPrototypeOf"; "propertyIsEnumerable";
   "toString"; "valueOf"; "__proto__"; "toLocaleString"].

Definition inherited (key : string) : bool :=
  existsb (String.eqb key) Object_prototype.
Arguments inherited : simpl never.

(** An rxjs [Subscription] created by [handleSubscribe]: whether it is closed,
    how often [unsubscribe()] was called on it, and what its three observers
    captured ([sender], [subscriptionId]); [owner] is the handler whose
    [handleSubscribe] made it. *)
Record Subscription := MkSubscription {
  closed : bool;
  unsubscribe_calls : nat;
  observer_sender : nat;
  observer_id : string;
  owner : nat
}.

(** [class ProxyServerHandler]: [target] and the [subscriptions] object,
    subscription id to (a reference to) its [Subscription]. *)
Record ProxyServerHandler := MkHandler {
  target : JSObject;
  subscriptions : gmap string nat
}.

(** Everything mutable: the module level [registrations] object (a stored
    [None] is JavaScript's [null]), the [ProxyServerHandler] instances and
    the [Subscription]s by reference, the transport's listeners per channel
    (each listener closes over its [server]), the [once('destroyed')]
    callbacks per sender (each closes over its handler and subscription id),
    and the log of [sender.send(channel, message)]. [registrations] and
    [subscriptions] hold the properties the two objects have of their own;
    what a read finds beyond them is [inherited]. *)
Record World := MkWorld {
  registrations : gmap string (option nat);
  handlers : list ProxyServerHandler;
  listeners : gmap string (list nat);
  rx : list Subscription;
  once_destroyed : list (nat * (nat * string));
  sent : list (nat * string * Response)
}.

Definition initial : World := MkWorld ∅ [] ∅ [] [] [].

Definition with_registrations (r : gmap string (option nat)) (w : World) : World :=
  MkWorld r (handlers w) (listeners w) (rx w) (once_destroyed w) (sent w).
Definition with_handlers (h : list ProxyServerHandler) (w : World) : World :=
  MkWorld (registrations w) h (listeners w) (rx w) (once_destroyed w) (sent w).
Definition with_listeners (l : gmap string (list nat)) (w : World) : World :=
  MkWorld (registrations w) (handlers w) l (rx w) (once_destroyed w) (sent w).
Definition with_rx (r : list Subscription) (w : World) : World :=
  MkWorld (registrations w) (handlers w) (listeners w) r (once_destroyed w) (sent w).
Definition with_once_destroyed (o : list (nat * (nat * string))) (w : World) : World :=
  MkWorld (registrations w) (handlers w) (listeners w) (rx w) o (sent w).
Definition with_sent (s : list (nat * string * Response)) (w : World) : World :=
  MkWorld (registrations w) (handlers w) (listeners w) (rx w) (once_destroyed w) s.

(** Code that reads and writes the world and may throw; what was written
    before a throw stays written. *)
Definition M (A : Type) : Type := World -> completion A * World.

Definition ret {A} (a : A) : M A := fun w => (Return a, w).
Definition throw {A} (e : error) : M A := fun w => (Throw e, w).
Definition lift {A} (c : completion A) : M A := fun w => (c, w).
Definition bind {A B} (m : M A) (k : A -> M B) : M B :=
  fun w =>
    match m w with
    | (Return a, w') => k a w'
    | (Throw e, w') => (Throw e, w')
    end.
Definition modify (f : World -> World) : M unit := fun w => (Return tt, f w).
Definition gets {A} (f : World -> A) : M A := fun w => (Return (f w), w).

(** stdpp's [x ← m; k] and [m;; k] for this monad. *)
#[global] Instance M_ret : MRet M := @ret.
#[global] Instance M_bind : MBind M := fun A B k m => bind m k.

(** ** The transport and rxjs, as far as the dispatcher uses them *)

(** [sender.send(channel, message)] *)
Definition send (sender : nat) (channel : string) (msg : Response) (w : World) : World :=
  with_sent (sent w ++ [(sender, channel, msg)]) w.

(** What [subscription.unsubscribe()] does to the subscription (rxjs itself
    ignores all but the first call; the calls are counted all the same). *)
Definition cancel (s : Subscription) : Subscription :=
  MkSubscription true (S (unsubscribe_calls s)) (observer_sender s) (observer_id s) (owner s).

(** What a terminal notification does to it. *)
Definition stop (s : Subscription) : Subscription :=
  MkSubscription true (unsubscribe_calls s) (observer_sender s) (observer_id s) (owner s).

Definition unsubscribe (subscription : nat) (w : World) : World :=
  with_rx (alter cancel subscription (rx w)) w.

Definition terminal (n : notification) : bool :=
  match n with
  | OnNext _ => false
  | _ => true
  end.

(** The three observers of [handleSubscribe] (lines 99 to 101). *)
Definition observe (sender : nat) (subscriptionId : string) (n : notification) : World -> World :=
  match n with
  | OnNext v => send sender subscriptionId (Next v)
  | OnError e => send sender subscriptionId (ErrorResponse (Errio_stringify e))
  | OnComplete => send sender subscriptionId Complete
  end.

(** The observable behind [subscription] emits [n]: a closed subscription
    drops it, an open one passes it to its observer and closes on a terminal
    notification. *)
Definition notify (subscription : nat) (n : notification) (w : World) : World :=
  match rx w !! subscription with
  | Some s =>
      if closed s then w
      else
        let w' := observe (observer_sender s) (observer_id s) n w in
        if terminal n then with_rx (alter stop subscription (rx w')) w' else w'
  | None => w
  end.

(** [obs.subscribe(next, error, complete)]: a new [Subscription], which
    receives what the observable emits at once. *)
Definition subscribe (obs : Observable) (sender : nat) (subscriptionId : string)
    (server : nat) : M nat :=
  fun w =>
    let subscription := length (rx w) in
    let w' := with_rx (rx w ++ [MkSubscription false 0 sender subscriptionId server]) w in
    (Return subscription, foldl (fun w n => notify subscription n w) w' (on_subscribe obs)).

(** ** [class ProxyServerHandler]; [this] is a reference into [handlers] *)

(** Reading [this]. A reference that points nowhere would be [undefined];
    the references the module keeps always point to a handler (see
    [inv_registered]). *)
Definition deref (this : nat) : M ProxyServerHandler :=
  fun w =>
    match handlers w !! this with
    | Some self => (Return self, w)
    | None => (Throw (TypeError "Cannot read property of undefined"), w)
    end.

Definition set_subscriptions (this : nat) (f : gmap string nat -> gmap string nat)
    (w : World) : World :=
  with_handlers
    (alter (fun self => MkHandler (target self) (f (subscriptions self))) this (handlers w)) w.

Definition handleGet (this : nat) (propKey : string) : M value :=
  self ← deref this;
  lift (get_prop (target self) propKey).

Definition handleApply (this : nat) (propKey : string) (args : list data) : M value :=
  self ← deref this;
  func ← lift (get_prop (target self) propKey);
  if negb (isFunction func) then
    throw (Error ("Property [" ++ propKey ++ "] is not a function"))
  else
    match func with
    | VFunction f => lift (f None args)
    | _ => throw (TypeError "func is not a function")
    end.

(** [this.subscriptions[subscriptionId]] is a [Subscription] of the table, an
    inherited value (truthy, and without [unsubscribe]), or [undefined]. *)
Definition doUnsubscribe (this : nat) (subscriptionId : string) : M unit :=
  self ← deref this;
  match subscriptions self !! subscriptionId with
  | Some subscription =>
      modify (unsubscribe subscription);;
      modify (set_subscriptions this (delete subscriptionId))
  | None =>
      if inherited subscriptionId then
        throw (TypeError "subscription.unsubscribe is not a function")
      else ret tt
  end.

Definition handleSubscribe (this : nat) (propKey : string) (subscriptionId : string)
    (sender : nat) : M value :=
  self ← deref this;
  if bool_decide (is_Some (subscriptions self !! subscriptionId))
     || inherited subscriptionId then
    throw (Error ("A subscription with Id [" ++ subscriptionId ++ "] already exists"))
  else
    obs ← lift (get_prop (target self) propKey);
    if negb (isObservable obs) then
      throw (Error ("Property [" ++ propKey ++ "] is not an observable"))
    else
      match obs with
      | VObservable o =>
          subscription ← subscribe o sender subscriptionId this;
          modify (set_subscriptions this <[subscriptionId := subscription]>);;
          modify (fun w => with_once_destroyed
                             (once_destroyed w ++ [(sender, (this, subscriptionId))]) w);;
          ret undefined
      | _ => throw (TypeError "obs.subscribe is not a function")
      end.

Definition handleUnsubscribe (this : nat) (subscriptionId : string) : M value :=
  self ← deref this;
  if bool_decide (is_Some (subscriptions self !! subscriptionId))
     || inherited subscriptionId then
    doUnsubscribe this subscriptionId;;
    ret undefined
  else
    throw (Error ("Subscription with Id [" ++ subscriptionId ++ "] does not exist")).

(** The body of the [async] method; the promise it returns is [settle] of
    the outcome. [handleSubscribe] takes [propKey] and [subscriptionId] from
    the request and nothing else. *)
Definition handleRequest (this : nat) (request : Request) (sender : nat) : M value :=
  match request with
  | GetRequest propKey => handleGet this propKey
  | ApplyRequest propKey args => handleApply this propKey args
  | SubscribeRequest propKey _ subscriptionId => handleSubscribe this propKey subscriptionId sender
  | UnsubscribeRequest subscriptionId => handleUnsubscribe this subscriptionId
  | OtherRequest type => throw (Error ("Unhandled RequestType [" ++ type ++ "]"))
  end.

(** [Object.values(this.subscriptions).forEach(...)]; the calls touch
    different subscriptions, so their order does not show. *)
Definition unsubscribeAll (this : nat) : M unit :=
  self ← deref this;
  modify (fun w => foldl (fun w subscription => unsubscribe subscription w) w
                     (map_to_list (subscriptions self)).*2);;
  modify (set_subscriptions this (fun _ => ∅)).

(** ** [registerProxy] and [unregisterProxy] *)

(** How the promise of an [async] function settles: a thrown error rejects
    it, a returned promise is adopted, any other value fulfils it. *)
Inductive settlement :=
| Fulfilled (result : value)
| RejectedWith (e : error)
| Unsettled.

Definition settle (c : completion value) : settlement :=
  match c with
  | Throw e => RejectedWith e
  | Return (VPromise (Resolved v)) => Fulfilled (VData v)
  | Return (VPromise (Rejected e)) => RejectedWith e
  | Return (VPromise Pending) => Unsettled
  | Return v => Fulfilled v
  end.

(** The listener installed by [transport.on(channel, ...)] (lines 23 to 28).
    The reply of a settled promise is sent within the step of the request;
    for a pending one [then] and [catch] wait, and the reply is sent when it
    settles ([Settle] below). *)
Definition listener (server : nat) (sender : nat) (request : Request)
    (correlationId : string) (w : World) : World :=
  let (c, w') := handleRequest server request sender w in
  match settle c with
  | Fulfilled result => send sender correlationId (Result result) w'
  | RejectedWith e => send sender correlationId (ErrorResponse (Errio_stringify e)) w'
  | Unsettled => w'
  end.

(** The function [registerProxy] returns: [() => unregisterProxy(channel, transport)]. *)
Inductive VoidFunction := Unregistration (channel : string).

(** The entry holds a handler. *)
Definition truthy {A} (x : option (option A)) : bool :=
  match x with
  | Some (Some _) => true
  | _ => false
  end.

(** Whether [registrations[channel]] is truthy, given the entry the object
    has of its own: a handler is, [null] is not, and without an entry the
    inherited value, if there is one, is. *)
Definition truthy_at {A} (key : string) (x : option (option A)) : bool :=
  match x with
  | Some (Some _) => true
  | Some None => false
  | None => inherited key
  end.

Definition registerProxy (target : JSObject) (descriptor : ProxyDescriptor) : M VoidFunction :=
  let channel := channel descriptor in
  registered ← gets (fun w => registrations w !! channel);
  if truthy_at channel registered then
    throw (Error ("Proxy object has already been registered on channel " ++ channel))
  else
    server ← gets (fun w => length (handlers w));
    modify (fun w => with_handlers (handlers w ++ [MkHandler target ∅]) w);;
    modify (fun w => with_registrations (<[channel := Some server]> (registrations w)) w);;
    modify (fun w => with_listeners
                       (<[channel := (default [] (listeners w !! channel) ++ [server])%list]>
                          (listeners w)) w);;
    ret (Unregistration channel).

Definition unregisterProxy (channel : string) : M unit :=
  modify (fun w => with_listeners (delete channel (listeners w)) w);;
  server ← gets (fun w => registrations w !! channel);
  match server with
  | Some (Some server) =>
      unsubscribeAll server;;
      modify (fun w => with_registrations (<[channel := None]> (registrations w)) w)
  | Some None => throw (Error ("No proxy is registered on channel " ++ channel))
  | None =>
      if inherited channel then throw (TypeError "server.unsubscribeAll is not a function")
      else throw (Error ("No proxy is registered on channel " ++ channel))
  end.

Definition call (f : VoidFunction) : M unit :=
  match f with
  | Unregistration channel => unregisterProxy channel
  end.

(** ** What can happen to the module *)

(** A call of [registerProxy], a call of a function it returned, a message
    arriving on a channel of the transport, the ['destroyed'] event of a
    sender, an emission of the observable behind a subscription, and the
    settling of a promise that was pending when its request was handled: the
    [then] or [catch] of the listener (lines 26 and 27) then sends the reply
    to the request's sender on its correlation id. The world does not record
    the requests in flight, so a late reply may come for any sender and
    correlation id; the late replies of the code are among these. *)
Inductive action :=
| Register (target : JSObject) (descriptor : ProxyDescriptor)
| Unregister (channel : string)
| Message (channel : string) (sender : nat) (request : Request) (correlationId : string)
| Destroyed (sender : nat)
| Emit (subscription : nat) (n : notification)
| Settle (sender : nat) (correlationId : string) (outcome : Promise).

(** The ['destroyed'] event of [sender]: its [once] callbacks are taken off
    and run in the order they were added. A callback that threw would end
    the event for the ones after it; in a reachable world none throws (see
    [destroyed_returns]), and what a throwing one leaves is kept here. *)
Definition destroyed (sender : nat) (w : World) : World :=
  let mine := filter (fun cb => cb.1 = sender) (once_destroyed w) in
  let rest := filter (fun cb => cb.1 ≠ sender) (once_destroyed w) in
  foldl (fun w cb => (doUnsubscribe cb.2.1 cb.2.2 w).2) (with_once_destroyed rest w) mine.

(** What the waiting [then] and [catch] of a listener do once the promise
    has settled. *)
Definition late_reply (sender : nat) (correlationId : string) (outcome : Promise)
    (w : World) : World :=
  match outcome with
  | Resolved v => send sender correlationId (Result (VData v)) w
  | Rejected e => send sender correlationId (ErrorResponse (Errio_stringify e)) w
  | Pending => w
  end.

Definition exec (a : action) (w : World) : World :=
  match a with
  | Register target descriptor => (registerProxy target descriptor w).2
  | Unregister channel => (call (Unregistration channel) w).2
  | Message channel sender request correlationId =>
      foldl (fun w server => listener server sender request correlationId w) w
        (default [] (listeners w !! channel))
  | Destroyed sender => destroyed sender w
  | Emit subscription n => notify subscription n w
  | Settle sender correlationId outcome => late_reply sender correlationId outcome w
  end.

Definition run (l : list action) (w : World) : World := foldl (fun w a => exec a w) w l.

(** The worlds the module can be in. *)
Definition reachable (w : World) : Prop := exists l, w = run l initial.

(** ** The target of the test suite ([test/test.ts], [class ProxiedClass]) *)

Definition of_ (values : list data) : Observable :=
  MkObservable ((OnNext <$> values) ++ [OnComplete]).
Definition interval : Observable := MkObservable [].
Definition throwError (e : error) : Observable := MkObservable [OnError e].

(** [this.stringMemberSync], in a getter or a method (the message of the
    [TypeError] is V8's). *)
Definition read_stringMemberSync (this : option fields) : completion value :=
  match this with
  | Some self => Return (VData (default DUndefined (self !! "stringMemberSync")))
  | None => Throw (TypeError "Cannot read property 'stringMemberSync' of undefined")
  end.

(** [num1 + num2] on two numbers, which is what the members are typed
    for; on other arguments [+] concatenates or yields [NaN], which is not
    modelled. *)
Definition add (args : list data) : data :=
  match args with
  | DNum num1 :: DNum num2 :: _ => DNum (num1 + num2)
  | _ => DUndefined
  end.

Definition addSync (args : list data) : completion value := Return (VData (add args)).
Definition addAsync (args : list data) : completion value :=
  Return (VPromise (Resolved (add args))).

(** An instance of the class, at the property names the class declares. The
    promise of [respondAfter] is pending when the call returns; it resolves
    with [undefined] later. [returnObservableProp] is an arrow function and
    reads the instance whatever its receiver. The names the instance
    inherits beyond the class ([constructor] and those of
    [Object.prototype]) are not modelled; the members named below are all
    among those the class declares. *)
Definition ProxiedClass : JSObject :=
  MkObject
    {[ "stringMemberSync" := DStr "a string"; "privateProperty" := DNum 42 ]}
    (list_to_map
       [("stringMemberAsync", Field (VPromise (Resolved (DStr "a string promise"))));
        ("stringGetter", Getter read_stringMemberSync);
        ("throwErrorSync", Field (VFunction (fun _ _ => Throw (Error "an error"))));
        ("throwErrorAsync",
          Field (VFunction (fun _ _ => Return (VPromise (Rejected (Error "a rejection"))))));
        ("addSync", Field (VFunction (fun _ args => addSync args)));
        ("addAsync", Field (VFunction (fun _ args => addAsync args)));
        ("returnStringMember", Field (VFunction (fun this _ => read_stringMemberSync this)));
        ("respondAfter", Field (VFunction (fun _ _ => Return (VPromise Pending))));
        ("observableProp", Field (VObservable (of_ [DNum 1; DNum 2; DNum 3])));
        ("observableHot", Field (VObservable interval));
        ("observableError", Field (VObservable (throwError (Error "error on stream"))));
        ("makeObservable", Field (VFunction (fun _ args => Return (VObservable (of_ args)))));
        ("makeObservableHot", Field (VFunction (fun _ _ => Return (VObservable interval))));
        ("makeObservableError",
          Field (VFunction (fun _ _ =>
                   Return (VObservable (throwError (Error "error on stream"))))));
        ("returnObservableProp",
          Field (VFunction (fun _ _ => Return (VObservable (of_ [DNum 1; DNum 2; DNum 3])))))]).

(** A target without a prototype, [Object.assign(Object.create(null),
    { answer: 42 })]: every other property reads as [undefined]. *)
Definition bare : JSObject := MkObject {[ "answer" := DNum 42 ]} ∅.

Definition bare_descriptor : ProxyDescriptor := MkDescriptor "answers" {[ "answer" := Value ]}.

Definition descriptor : ProxyDescriptor :=
  MkDescriptor "channelName"
    (list_to_map
       [("stringMemberSync", Value); ("stringMemberAsync", Value); ("stringGetter", Value);
        ("throwErrorSync", Function); ("throwErrorAsync", Function); ("addSync", Function);
        ("addAsync", Function); ("returnStringMember", Function); ("respondAfter", Function);
        ("observableProp", ValueStream); ("observableError", ValueStream);
        ("observableHot", ValueStream); ("makeObservable", FunctionStream);
        ("makeObservableError", FunctionStream); ("makeObservableHot", FunctionStream);
        ("returnObservableProp", FunctionStream); ("missingFunction", Function)]).

(** A world with the test suite's registration ([test.beforeEach]). *)
Definition registered_world : World :=
  run [Register ProxiedClass descriptor] initial.

(** The same with [observableHot] subscribed by sender 7 under the id [s1]. *)
Definition subscribed_world : World :=
  run [Message "channelName" 7 (SubscribeRequest "observableHot" None "s1") "c1"]
    registered_world.

(** ** Invariants of the reachable worlds *)

(** A subscription only ever changes by being closed: what its observers
    captured and its owner stay, the count of [unsubscribe()] calls grows. *)
Definition sub_le (s s' : Subscription) : Prop :=
  s' = s \/
  (closed s' = true /\ observer_sender s' = observer_sender s /\
   observer_id s' = observer_id s /\ owner s' = owner s /\
   unsubscribe_calls s <= unsubscribe_calls s').

Definition rx_le (r r' : list Subscription) : Prop :=
  forall h s, r !! h = Some s -> exists s', r' !! h = Some s' /\ sub_le s s'.

(** A channel with an active registration has exactly the listener of its
    handler, and the handler exists. *)
Definition inv_registered (w : World) : Prop :=
  forall channel server,
    registrations w !! channel = Some (Some server) ->
    listeners w !! channel = Some [server] /\ is_Some (handlers w !! server).

(** A channel without an active registration has no listener. *)
Definition inv_listeners (w : World) : Prop :=
  forall channel,
    truthy (registrations w !! channel) = false -> listeners w !! channel = None.

(** An open subscription sits in the table of its owner, under its id. *)
Definition inv_table (w : World) : Prop :=
  forall h s,
    rx w !! h = Some s -> closed s = false ->
    exists self,
      handlers w !! owner s = Some self /\ subscriptions self !! observer_id s = Some h.

(** An open subscription has its [once('destroyed')] callback pending. *)
Definition inv_once (w : World) : Prop :=
  forall h s,
    rx w !! h = Some s -> closed s = false ->
    (observer_sender s, (owner s, observer_id s)) ∈ once_destroyed w.

(** [registrations] never gets a property of its own under an inherited
    name: a registration under such a name is refused. *)
Definition inv_channels (w : World) : Prop :=
  forall channel, inherited channel = true -> registrations w !! channel = None.

(** Nor does a subscription table: the id is refused as existing. *)
Definition inv_ids (w : World) : Prop :=
  forall this self subscriptionId,
    handlers w !! this = Some self -> inherited subscriptionId = true ->
    subscriptions self !! subscriptionId = None.

(** A pending [once('destroyed')] callback names a handler that exists and an
    id that is not inherited. *)
Definition inv_callbacks (w : World) : Prop :=
  forall cb, cb ∈ once_destroyed w ->
    is_Some (handlers w !! cb.2.1) /\ inherited cb.2.2 = false.

Record invariant (w : World) : Prop := MkInvariant {
  inv_reg : inv_registered w;
  inv_lis : inv_listeners w;
  inv_tab : inv_table w;
  inv_onc : inv_once w;
  inv_cha : inv_channels w;
  inv_own : inv_ids w;
  inv_cbs : inv_callbacks w
}.

(** A step that closes subscriptions and sends messages, and nothing else. *)
Record rx_step (w w' : World) : Prop := MkRxStep {
  step_registrations : registrations w' = registrations w;
  step_handlers : handlers w' = handlers w;
  step_listeners : listeners w' = listeners w;
  step_once : once_destroyed w' = once_destroyed w;
  step_length : length (rx w') = length (rx w);
  step_rx : rx_le (rx w) (rx w')
}.

(** The world a successful [handleSubscribe] leaves: the new subscription
    has received what the observable emits at once, sits in the table, and
    has its [once('destroyed')] callback pending. *)
Definition opened (this : nat) (subscriptionId : string) (sender : nat) (o : Observable)
    (w : World) : World :=
  let subscription := length (rx w) in
  let w1 := foldl (fun w n => notify subscription n w)
              (with_rx (rx w ++ [MkSubscription false 0 sender subscriptionId this]) w)
              (on_subscribe o) in
  with_once_destroyed (once_destroyed w1 ++ [(sender, (this, subscriptionId))])
    (set_subscriptions this <[subscriptionId := subscription]> w1).

(** What every piece of the module's code does to the world: it keeps the
    invariants, and it changes subscriptions only by closing them. *)
Record evolves (w w' : World) : Prop := MkEvolves {
  evolves_invariant : invariant w -> invariant w';
  evolves_rx : rx_le (rx w) (rx w')
}.

(** The table of handler [this] has no entry for [subscriptionId]. *)
Definition absent (this : nat) (subscriptionId : string) (w : World) : Prop :=
  forall self, handlers w !! this = Some self -> subscriptions self !! subscriptionId = None.

(** Running a list of [once('destroyed')] callbacks. *)
Definition run_callbacks (l : list (nat * (nat * string))) (w : World) : World :=
  foldl (fun w cb => (doUnsubscribe cb.2.1 cb.2.2 w).2) w l.

(** The callbacks of [l], run in this order, all return. *)
Fixpoint callbacks_return (l : list (nat * (nat * string))) (w : World) : Prop :=
  match l with
  | [] => True
  | cb :: l =>
      (doUnsubscribe cb.2.1 cb.2.2 w).1 = Return tt /\
      callbacks_return l (doUnsubscribe cb.2.1 cb.2.2 w).2
  end.

(** ** Notions for the properties of the remaining code *)

(** The message an observer of [handleSubscribe] sends for a notification. *)
Definition message_of (n : notification) : Response :=
  match n with
  | OnNext v => Next v
  | OnError e => ErrorResponse (Errio_stringify e)
  | OnComplete => Complete
  end.

(** The notifications that reach an observer: all up to the first terminal
    one, that one included. *)
Fixpoint delivered (l : list notification) : list notification :=
  match l with
  | [] => []
  | n :: l => if terminal n then [n] else n :: delivered l
  end.

(** The action is a call of the unregistration function of [channel]. *)
Definition unregisters (channel : string) (a : action) : Prop :=
  match a with
  | Unregister channel' => channel' = channel
  | _ => False
  end.

(** A table entry points to a subscription that the handler of the table
    made under the id of the entry. *)
Definition inv_entries (w : World) : Prop :=
  forall this self subscriptionId h,
    handlers w !! this = Some self ->
    subscriptions self !! subscriptionId = Some h ->
    exists s, rx w !! h = Some s /\ owner s = this /\ observer_id s = subscriptionId.

(** [unsubscribe()] has been called on a subscription once at most, and a
    subscription it has been called on is in no table. *)
Definition inv_calls (w : World) : Prop :=
  forall h s,
    rx w !! h = Some s ->
    unsubscribe_calls s <= 1 /\
    (unsubscribe_calls s = 1 ->
     forall this self subscriptionId,
       handlers w !! this = Some self -> subscriptions self !! subscriptionId <> Some h).

(** A handler is registered on one channel at most. *)
Definition inv_inj (w : World) : Prop :=
  forall channel1 channel2 server,
    registrations w !! channel1 = Some (Some server) ->
    registrations w !! channel2 = Some (Some server) ->
    channel1 = channel2.

(** The tables of [w'] hold nothing the tables of [w] do not hold. *)
Definition tables_shrink (w w' : World) : Prop :=
  forall this self' subscriptionId h,
    handlers w' !! this = Some self' ->
    subscriptions self' !! subscriptionId = Some h ->
    exists self,
      handlers w !! this = Some self /\ subscriptions self !! subscriptionId = Some h.

(** Code that leaves the registrations and the listeners alone and keeps
    every handler bound to its target. *)
Record handler_step (w w' : World) : Prop := MkHandlerStep {
  hs_registrations : registrations w' = registrations w;
  hs_listeners : listeners w' = listeners w;
  hs_targets : forall i self, handlers w !! i = Some self ->
                 exists self', handlers w' !! i = Some self' /\ target self' = target self
}.

(** The two invariants about tables and subscriptions together. *)
Record inv_subs (w : World) : Prop := MkInvSubs {
  inv_ent : inv_entries w;
  inv_cal : inv_calls w
}.

(** ** Evaluating monadic code *)

Ltac msimpl :=
  unfold mbind, M_bind, bind, mret, M_ret, ret, throw, lift, modify, gets, deref in *;
  simpl in *.

Lemma deref_Some this self w :
  handlers w !! this = Some self -> deref this w = (Return self, w).
Proof. intros H. unfold deref. by rewrite H. Qed.

Lemma isFunction_inv v : isFunction v = true -> exists f, v = VFunction f.
Proof. destruct v; try discriminate. eauto. Qed.

Lemma isObservable_inv v : isObservable v = true -> exists o, v = VObservable o.
Proof. destruct v; try discriminate. eauto. Qed.

(** ** [Apply] *)


(** A member that is not callable is refused with the message of line 79. *)
Lemma handleApply_not_callable this self propKey args v w :
  handlers w !! this = Some self ->
  get_prop (target self) propKey = Return v ->
  isFunction v = false ->
  handleApply this propKey args w
  = (Throw (Error ("Property [" ++ propKey ++ "] is not a function")), w).
Proof.
  intros Hthis Hget Hfun. unfold handleApply. msimpl.
  rewrite Hthis. simpl. rewrite Hget. simpl. by rewrite Hfun.
Qed.

(** C2: an [Apply] request on a callable member is to call it with the target
    as receiver, as the test "binds this correctly when calling function"
    expects. At [ProxiedClass.returnStringMember] the code calls the member
    without a receiver ([func(...args)], line 82): the direct call returns
    ["a string"], the dispatcher's call throws, and the reply is an [Error]
    response instead of the [Result]. *)
Theorem handleApply_drops_receiver :
  call_method ProxiedClass "returnStringMember" [] = Return (VData (DStr "a string")) /\
  handleRequest 0 (ApplyRequest "returnStringMember" []) 7 registered_world
  = (Throw (TypeError "Cannot read property 'stringMemberSync' of undefined"),
     registered_world) /\
  sent (exec (Message "channelName" 7 (ApplyRequest "returnStringMember" []) "c1")
          registered_world)
  = [(7, "c1", ErrorResponse
                 (Errio_stringify
                    (TypeError "Cannot read property 'stringMemberSync' of undefined")))].
Proof. repeat split; vm_compute; reflexivity. Qed.

(** Members that do not look at their receiver are served: the round trips
    of the test suite, [addSync(4, 5)] and a synchronous throw. *)
Example apply_addSync :
  sent (exec (Message "channelName" 7 (ApplyRequest "addSync" [DNum 4; DNum 5]) "c1")
          registered_world)
  = [(7, "c1", Result (VData (DNum 9)))].
Proof. vm_compute. reflexivity. Qed.

Example apply_throwErrorSync :
  sent (exec (Message "channelName" 7 (ApplyRequest "throwErrorSync" []) "c1")
          registered_world)
  = [(7, "c1", ErrorResponse (Errio_stringify (Error "an error")))].
Proof. vm_compute. reflexivity. Qed.

(** C3: an [Apply] request for a member that is not callable fails, and the
    message is to read "Remote property [<propKey>] is not a function" (the
    test suite compares the rendered error with it). At [missingFunction] the
    code's message is "Property [missingFunction] is not a function": the
    word "Remote" is missing and the capital differs. *)
Theorem handleApply_missingFunction_message :
  handleRequest 0 (ApplyRequest "missingFunction" []) 7 registered_world
  = (Throw (Error "Property [missingFunction] is not a function"), registered_world) /\
  sent (exec (Message "channelName" 7 (ApplyRequest "missingFunction" []) "c1")
          registered_world)
  = [(7, "c1", ErrorResponse
                 (Errio_stringify (Error "Property [missingFunction] is not a function")))] /\
  message (Error "Property [missingFunction] is not a function")
  <> "Remote property [missingFunction] is not a function".
Proof. repeat split; try (vm_compute; reflexivity). discriminate. Qed.

(** ** [Subscribe] *)

(** [handleSubscribe] never reads [args]. *)
Lemma handleSubscribe_args_unused this propKey args subscriptionId sender w :
  handleRequest this (SubscribeRequest propKey args subscriptionId) sender w
  = handleRequest this (SubscribeRequest propKey None subscriptionId) sender w.
Proof. reflexivity. Qed.

(** A member that is not stream shaped is refused (line 95), once the id
    has passed the test of line 88. *)
Lemma handleSubscribe_not_observable this self propKey args subscriptionId sender v w :
  handlers w !! this = Some self ->
  subscriptions self !! subscriptionId = None ->
  inherited subscriptionId = false ->
  get_prop (target self) propKey = Return v ->
  isObservable v = false ->
  handleRequest this (SubscribeRequest propKey args subscriptionId) sender w
  = (Throw (Error ("Property [" ++ propKey ++ "] is not an observable")), w).
Proof.
  intros Hthis Hsub Hinh Hget Hobs. unfold handleRequest, handleSubscribe. msimpl.
  rewrite Hthis. simpl. rewrite Hsub, Hinh.
  rewrite bool_decide_eq_false_2 by (intros [? ?]; discriminate).
  simpl. rewrite Hget. simpl. by rewrite Hobs.
Qed.

(** C1: a [Subscribe] request with [args] is to call the member with them and
    subscribe to the stream it returns, as the test "Function$: returns
    observable" expects. At [makeObservable(1, 2)] the direct call returns the
    stream of 1 and 2, while the code tests the member itself (a function) for
    a [subscribe] method and refuses the request. *)
Theorem handleSubscribe_does_not_call_member :
  call_method ProxiedClass "makeObservable" [DNum 1; DNum 2]
  = Return (VObservable (of_ [DNum 1; DNum 2])) /\
  handleRequest 0 (SubscribeRequest "makeObservable" (Some [DNum 1; DNum 2]) "s1") 7
    registered_world
  = (Throw (Error "Property [makeObservable] is not an observable"), registered_world) /\
  sent (exec (Message "channelName" 7
                (SubscribeRequest "makeObservable" (Some [DNum 1; DNum 2]) "s1") "c1")
          registered_world)
  = [(7, "c1", ErrorResponse
                 (Errio_stringify (Error "Property [makeObservable] is not an observable")))].
Proof. repeat split; vm_compute; reflexivity. Qed.

(** Without [args] the member itself is the stream: [observableProp] is
    delivered in order and completed. *)
Example subscribe_observableProp :
  sent (exec (Message "channelName" 7 (SubscribeRequest "observableProp" None "s1") "c1")
          registered_world)
  = [(7, "s1", Next (DNum 1)); (7, "s1", Next (DNum 2)); (7, "s1", Next (DNum 3));
     (7, "s1", Complete); (7, "c1", Result undefined)].
Proof. vm_compute. reflexivity. Qed.

(** ** Registration *)

Lemma registerProxy_duplicate obj descriptor server w :
  registrations w !! channel descriptor = Some (Some server) ->
  registerProxy obj descriptor w
  = (Throw (Error ("Proxy object has already been registered on channel "
                   ++ channel descriptor)), w).
Proof. intros H. unfold registerProxy. msimpl. by rewrite H. Qed.

(** The inherited value under the channel's name passes for a registration. *)
Lemma registerProxy_inherited obj descriptor w :
  registrations w !! channel descriptor = None ->
  inherited (channel descriptor) = true ->
  registerProxy obj descriptor w
  = (Throw (Error ("Proxy object has already been registered on channel "
                   ++ channel descriptor)), w).
Proof. intros H Hinh. unfold registerProxy. msimpl. rewrite H. simpl. by rewrite Hinh. Qed.

Lemma registerProxy_fresh obj descriptor w :
  truthy_at (channel descriptor) (registrations w !! channel descriptor) = false ->
  registerProxy obj descriptor w
  = (Return (Unregistration (channel descriptor)),
     MkWorld (<[channel descriptor := Some (length (handlers w))]> (registrations w))
       (handlers w ++ [MkHandler obj ∅])
       (<[channel descriptor :=
            (default [] (listeners w !! channel descriptor) ++ [length (handlers w)])%list]>
          (listeners w))
       (rx w) (once_destroyed w) (sent w)).
Proof. intros H. unfold registerProxy. msimpl. by rewrite H. Qed.

Lemma truthy_false {A} (x : option (option A)) :
  x = None \/ x = Some None -> truthy x = false.
Proof. by intros [-> | ->]. Qed.

Lemma truthy_at_false {A} key (x : option (option A)) :
  x = None \/ x = Some None -> inherited key = false -> truthy_at key x = false.
Proof. by intros [-> | ->]. Qed.

Lemma truthy_at_truthy {A} key (x : option (option A)) :
  truthy_at key x = false -> truthy x = false.
Proof. by destruct x as [[?|]|]. Qed.

(** The three ways [registerProxy] can go. *)
Lemma registerProxy_cases (descriptor : ProxyDescriptor) (w : World) :
  (exists server, registrations w !! channel descriptor = Some (Some server)) \/
  (registrations w !! channel descriptor = None /\ inherited (channel descriptor) = true) \/
  truthy_at (channel descriptor) (registrations w !! channel descriptor) = false.
Proof.
  destruct (registrations w !! channel descriptor) as [[server|]|]; simpl; eauto.
  destruct (inherited (channel descriptor)); eauto.
Qed.

Lemma registerProxy_refused obj descriptor w :
  truthy_at (channel descriptor) (registrations w !! channel descriptor) = true ->
  registerProxy obj descriptor w
  = (Throw (Error ("Proxy object has already been registered on channel "
                   ++ channel descriptor)), w).
Proof. intros H. unfold registerProxy. msimpl. by rewrite H. Qed.




(** ** [Unsubscribe] *)

Lemma doUnsubscribe_present this self subscriptionId subscription w :
  handlers w !! this = Some self ->
  subscriptions self !! subscriptionId = Some subscription ->
  doUnsubscribe this subscriptionId w
  = (Return tt, set_subscriptions this (delete subscriptionId) (unsubscribe subscription w)).
Proof. intros Hthis Hsub. unfold doUnsubscribe. msimpl. rewrite Hthis. simpl. by rewrite Hsub. Qed.

Lemma doUnsubscribe_absent this self subscriptionId w :
  handlers w !! this = Some self ->
  subscriptions self !! subscriptionId = None ->
  inherited subscriptionId = false ->
  doUnsubscribe this subscriptionId w = (Return tt, w).
Proof.
  intros Hthis Hsub Hinh. unfold doUnsubscribe. msimpl. rewrite Hthis. simpl.
  by rewrite Hsub, Hinh.
Qed.

(** The inherited value under the id has no [unsubscribe]. *)
Lemma doUnsubscribe_inherited this self subscriptionId w :
  handlers w !! this = Some self ->
  subscriptions self !! subscriptionId = None ->
  inherited subscriptionId = true ->
  doUnsubscribe this subscriptionId w
  = (Throw (TypeError "subscription.unsubscribe is not a function"), w).
Proof.
  intros Hthis Hsub Hinh. unfold doUnsubscribe. msimpl. rewrite Hthis. simpl.
  by rewrite Hsub, Hinh.
Qed.

Lemma doUnsubscribe_dangling this subscriptionId w :
  handlers w !! this = None ->
  (doUnsubscribe this subscriptionId w).2 = w.
Proof. intros Hthis. unfold doUnsubscribe. msimpl. by rewrite Hthis. Qed.

Lemma doUnsubscribe_none this self subscriptionId w :
  handlers w !! this = Some self ->
  subscriptions self !! subscriptionId = None ->
  (doUnsubscribe this subscriptionId w).2 = w.
Proof.
  intros Hthis Hsub. destruct (inherited subscriptionId) eqn:Hinh.
  - by rewrite (doUnsubscribe_inherited _ _ _ _ Hthis Hsub Hinh).
  - by rewrite (doUnsubscribe_absent _ _ _ _ Hthis Hsub Hinh).
Qed.

Lemma handleUnsubscribe_absent this self subscriptionId w :
  handlers w !! this = Some self ->
  subscriptions self !! subscriptionId = None ->
  inherited subscriptionId = false ->
  handleUnsubscribe this subscriptionId w
  = (Throw (Error ("Subscription with Id [" ++ subscriptionId ++ "] does not exist")), w).
Proof.
  intros Hthis Hsub Hinh. unfold handleUnsubscribe. msimpl. rewrite Hthis. simpl.
  rewrite Hsub, Hinh. by rewrite bool_decide_eq_false_2 by (intros [? ?]; discriminate).
Qed.

(** Under an inherited name the test of line 111 finds a truthy value, and
    line 122 calls a method it does not have. *)
Lemma handleUnsubscribe_inherited this self subscriptionId w :
  handlers w !! this = Some self ->
  subscriptions self !! subscriptionId = None ->
  inherited subscriptionId = true ->
  handleUnsubscribe this subscriptionId w
  = (Throw (TypeError "subscription.unsubscribe is not a function"), w).
Proof.
  intros Hthis Hsub Hinh. unfold handleUnsubscribe.
  unfold mbind at 1, M_bind, bind. rewrite (deref_Some _ _ _ Hthis).
  rewrite Hinh, orb_true_r.
  unfold mbind, M_bind, bind. by rewrite (doUnsubscribe_inherited _ _ _ _ Hthis Hsub Hinh).
Qed.

Lemma handleUnsubscribe_present this self subscriptionId subscription w :
  handlers w !! this = Some self ->
  subscriptions self !! subscriptionId = Some subscription ->
  handleUnsubscribe this subscriptionId w
  = (Return undefined,
     set_subscriptions this (delete subscriptionId) (unsubscribe subscription w)).
Proof.
  intros Hthis Hsub. unfold handleUnsubscribe.
  unfold mbind at 1, M_bind, bind. rewrite (deref_Some _ _ _ Hthis).
  rewrite Hsub. rewrite bool_decide_eq_true_2 by eauto. simpl.
  unfold mbind, M_bind, bind. by rewrite (doUnsubscribe_present _ _ _ _ _ Hthis Hsub).
Qed.

(** ** Subscriptions only close *)

Lemma sub_le_refl s : sub_le s s.
Proof. by left. Qed.

Lemma sub_le_trans s1 s2 s3 : sub_le s1 s2 -> sub_le s2 s3 -> sub_le s1 s3.
Proof.
  intros [-> | (? & ? & ? & ? & ?)] [-> | (? & ? & ? & ? & ?)]; unfold sub_le;
    [by left | right | right | right]; repeat split; try congruence; lia.
Qed.

Lemma sub_le_cancel s : sub_le s (cancel s).
Proof. right. repeat split; simpl; lia. Qed.

Lemma sub_le_stop s : sub_le s (stop s).
Proof. right. repeat split; simpl; lia. Qed.

Lemma sub_le_calls s s' : sub_le s s' -> unsubscribe_calls s <= unsubscribe_calls s'.
Proof. intros [-> | (_ & _ & _ & _ & ?)]; [done | lia]. Qed.

Lemma sub_le_open s s' : sub_le s s' -> closed s' = false -> s' = s.
Proof. intros [-> | (? & _)] ?; [done | congruence]. Qed.

Lemma sub_le_closed s s' : sub_le s s' -> closed s = true -> closed s' = true.
Proof. intros [-> | (? & _)] ?; done. Qed.

Lemma rx_le_refl r : rx_le r r.
Proof. intros h s H. exists s. split; [done | apply sub_le_refl]. Qed.

Lemma rx_le_trans r1 r2 r3 : rx_le r1 r2 -> rx_le r2 r3 -> rx_le r1 r3.
Proof.
  intros H12 H23 h s H. destruct (H12 h s H) as (s2 & H2 & Hle2).
  destruct (H23 h s2 H2) as (s3 & H3 & Hle3).
  exists s3. split; [done | by eapply sub_le_trans].
Qed.

Lemma rx_le_alter f r h : (forall s, sub_le s (f s)) -> rx_le r (alter f h r).
Proof.
  intros Hf h' s H. destruct (decide (h = h')) as [-> | Hne].
  - exists (f s). rewrite list_lookup_alter_eq, H. by split.
  - exists s. rewrite list_lookup_alter_ne by done. split; [done | apply sub_le_refl].
Qed.

Lemma rx_le_app r new : rx_le r (r ++ new).
Proof.
  intros h s H. exists s. split; [by apply lookup_app_l_Some | apply sub_le_refl].
Qed.

(** With no subscription added, what is open afterwards was there before,
    unchanged. *)
Lemma rx_le_open_inv r r' h s' :
  rx_le r r' -> length r' = length r ->
  r' !! h = Some s' -> closed s' = false -> r !! h = Some s'.
Proof.
  intros Hle Hlen H' Hopen.
  assert (Hlt : h < length r) by (rewrite <- Hlen; by eapply lookup_lt_Some).
  destruct (lookup_lt_is_Some_2 _ _ Hlt) as [s Hs].
  destruct (Hle h s Hs) as (s'' & H'' & Hsub).
  rewrite H' in H''. injection H'' as <-.
  by rewrite (sub_le_open _ _ Hsub Hopen) in *.
Qed.

Lemma rx_le_closed r r' h s :
  rx_le r r' -> r !! h = Some s -> closed s = true ->
  exists s', r' !! h = Some s' /\ closed s' = true.
Proof.
  intros Hle Hs Hclosed. destruct (Hle h s Hs) as (s' & H' & Hsub).
  exists s'. split; [done | by eapply sub_le_closed].
Qed.

Lemma rx_step_refl w : rx_step w w.
Proof. split; try done. apply rx_le_refl. Qed.

Lemma rx_step_trans w1 w2 w3 : rx_step w1 w2 -> rx_step w2 w3 -> rx_step w1 w3.
Proof.
  intros [] []. split; try congruence. by eapply rx_le_trans.
Qed.

Lemma rx_step_send sender channel msg w : rx_step w (send sender channel msg w).
Proof. split; try done. apply rx_le_refl. Qed.

Lemma rx_step_late_reply sender correlationId outcome w :
  rx_step w (late_reply sender correlationId outcome w).
Proof. destruct outcome; simpl; [apply rx_step_send.. | apply rx_step_refl]. Qed.

Lemma rx_step_unsubscribe h w : rx_step w (unsubscribe h w).
Proof.
  split; try done; simpl.
  - apply length_alter.
  - apply rx_le_alter, sub_le_cancel.
Qed.

Lemma rx_step_observe sender subscriptionId n w :
  rx_step w (observe sender subscriptionId n w).
Proof. destruct n; apply rx_step_send. Qed.

Lemma rx_step_notify h n w : rx_step w (notify h n w).
Proof.
  unfold notify. destruct (rx w !! h) as [s|]; [|apply rx_step_refl].
  destruct (closed s); [apply rx_step_refl|].
  destruct (terminal n); [|apply rx_step_observe].
  eapply rx_step_trans; [apply rx_step_observe|].
  split; try done; simpl.
  - apply length_alter.
  - apply rx_le_alter, sub_le_stop.
Qed.

Lemma rx_step_foldl {A} (f : World -> A -> World) (l : list A) w :
  (forall w a, rx_step w (f w a)) -> rx_step w (foldl f w l).
Proof.
  intros Hf. revert w. induction l as [|a l IH]; intros w; simpl.
  - apply rx_step_refl.
  - eapply rx_step_trans; [apply Hf | apply IH].
Qed.

(** Such a step keeps every invariant. *)
Lemma rx_step_open w w' h s' :
  rx_step w w' -> rx w' !! h = Some s' -> closed s' = false -> rx w !! h = Some s'.
Proof. intros []. by eapply rx_le_open_inv. Qed.

Lemma rx_step_invariant w w' : rx_step w w' -> invariant w -> invariant w'.
Proof.
  intros Hstep [Hreg Hlis Htab Honc Hcha Hown Hcbs].
  pose proof Hstep as [Hr Hh Hl Ho Hlen Hle]. split.
  - intros channel server. rewrite Hr, Hl, Hh. apply Hreg.
  - intros channel. rewrite Hr, Hl. apply Hlis.
  - intros h s Hs Hopen. rewrite Hh.
    apply Htab; [by eapply rx_step_open | done].
  - intros h s Hs Hopen. rewrite Ho.
    eapply Honc; [by eapply rx_step_open | done].
  - intros channel. rewrite Hr. apply Hcha.
  - intros this self subscriptionId. rewrite Hh. apply Hown.
  - intros cb. rewrite Ho, Hh. apply Hcbs.
Qed.

(** ** The invariants hold in every reachable world *)

Lemma handlers_set_subscriptions_eq this f self w :
  handlers w !! this = Some self ->
  handlers (set_subscriptions this f w) !! this
  = Some (MkHandler (target self) (f (subscriptions self))).
Proof. intros H. simpl. by rewrite list_lookup_alter_eq, H. Qed.

Lemma handlers_set_subscriptions_ne this f other w :
  this <> other ->
  handlers (set_subscriptions this f w) !! other = handlers w !! other.
Proof. intros H. simpl. by rewrite list_lookup_alter_ne. Qed.

Lemma handlers_set_subscriptions_is_Some this f other w :
  is_Some (handlers w !! other) ->
  is_Some (handlers (set_subscriptions this f w) !! other).
Proof.
  intros H. apply lookup_lt_is_Some. simpl. rewrite length_alter.
  by apply lookup_lt_is_Some.
Qed.

(** Rewriting the table of [this] keeps [inv_table] as long as the entries of
    the open subscriptions stay. *)
Lemma inv_table_set_subscriptions this f w :
  inv_table w ->
  (forall h s self,
     rx w !! h = Some s -> closed s = false -> owner s = this ->
     handlers w !! this = Some self ->
     subscriptions self !! observer_id s = Some h ->
     f (subscriptions self) !! observer_id s = Some h) ->
  inv_table (set_subscriptions this f w).
Proof.
  intros Htab Hf h s Hs Hopen. simpl in Hs.
  destruct (Htab h s Hs Hopen) as (self & Hself & Hentry).
  destruct (decide (this = owner s)) as [-> | Hne].
  - eexists. split; [by apply handlers_set_subscriptions_eq|]. simpl. by eapply Hf.
  - exists self. split; [|done]. by rewrite handlers_set_subscriptions_ne.
Qed.

Lemma invariant_set_subscriptions this f w :
  invariant w ->
  (forall h s self,
     rx w !! h = Some s -> closed s = false -> owner s = this ->
     handlers w !! this = Some self ->
     subscriptions self !! observer_id s = Some h ->
     f (subscriptions self) !! observer_id s = Some h) ->
  (forall m subscriptionId, m !! subscriptionId = None -> f m !! subscriptionId = None) ->
  invariant (set_subscriptions this f w).
Proof.
  intros [Hreg Hlis Htab Honc Hcha Hown Hcbs] Hf Hshrink. split.
  - intros channel server H. destruct (Hreg channel server H) as [Hl Hh].
    split; [done | by apply handlers_set_subscriptions_is_Some].
  - exact Hlis.
  - by apply inv_table_set_subscriptions.
  - exact Honc.
  - exact Hcha.
  - intros other self' subscriptionId Hself' Hinh.
    destruct (decide (this = other)) as [<- | Hne].
    + destruct (handlers w !! this) as [self|] eqn:Hthis.
      * rewrite (handlers_set_subscriptions_eq _ _ _ _ Hthis) in Hself'.
        injection Hself' as <-. simpl. apply Hshrink. by eapply Hown.
      * simpl in Hself'. rewrite list_lookup_alter_eq, Hthis in Hself'. done.
    + rewrite handlers_set_subscriptions_ne in Hself' by done. by eapply Hown.
  - intros cb Hin. destruct (Hcbs cb Hin) as [Hsome Hinh].
    split; [by apply handlers_set_subscriptions_is_Some | done].
Qed.

Lemma invariant_doUnsubscribe_present this self subscriptionId subscription w :
  invariant w ->
  handlers w !! this = Some self ->
  subscriptions self !! subscriptionId = Some subscription ->
  invariant (set_subscriptions this (delete subscriptionId) (unsubscribe subscription w)).
Proof.
  intros Hinv Hthis Hsub.
  apply invariant_set_subscriptions.
  { eapply rx_step_invariant; [apply rx_step_unsubscribe | done]. }
  - intros h s self' Hs Hopen Howner Hself' Hentry.
    simpl in Hs, Hself'. rewrite Hthis in Hself'. injection Hself' as <-.
    destruct (decide (subscription = h)) as [-> | Hne].
    + rewrite list_lookup_alter_eq in Hs. destruct (rx w !! h); [|done].
      injection Hs as <-. discriminate.
    + rewrite lookup_delete_ne; [done|]. intros Heq. rewrite <- Heq in Hentry. congruence.
  - intros m other Hm. apply lookup_delete_None. by right.
Qed.

(** What [doUnsubscribe] can do. *)
Lemma doUnsubscribe_cases this subscriptionId w :
  (doUnsubscribe this subscriptionId w).2 = w \/
  exists self subscription,
    handlers w !! this = Some self /\
    subscriptions self !! subscriptionId = Some subscription /\
    (doUnsubscribe this subscriptionId w).2
    = set_subscriptions this (delete subscriptionId) (unsubscribe subscription w).
Proof.
  destruct (handlers w !! this) as [self|] eqn:Hthis.
  - destruct (subscriptions self !! subscriptionId) as [subscription|] eqn:Hsub.
    + right. exists self, subscription.
      by rewrite (doUnsubscribe_present _ _ _ _ _ Hthis Hsub).
    + left. by apply doUnsubscribe_none with self.
  - left. by apply doUnsubscribe_dangling.
Qed.

Lemma invariant_doUnsubscribe this subscriptionId w :
  invariant w -> invariant (doUnsubscribe this subscriptionId w).2.
Proof.
  intros Hinv.
  destruct (doUnsubscribe_cases this subscriptionId w)
    as [-> | (self & subscription & Hthis & Hsub & ->)]; [done|].
  by eapply invariant_doUnsubscribe_present.
Qed.

(** [unsubscribeAll]: every subscription in the table is cancelled. *)
Lemma unsubscribeAll_Some this self w :
  handlers w !! this = Some self ->
  unsubscribeAll this w
  = (Return tt,
     set_subscriptions this (fun _ => ∅)
       (foldl (fun w subscription => unsubscribe subscription w) w
          (map_to_list (subscriptions self)).*2)).
Proof. intros H. unfold unsubscribeAll. msimpl. by rewrite H. Qed.

Lemma rx_step_unsubscribe_all l w :
  rx_step w (foldl (fun w subscription => unsubscribe subscription w) w l).
Proof. apply rx_step_foldl. intros. apply rx_step_unsubscribe. Qed.

Lemma unsubscribe_all_closed l w h s :
  rx w !! h = Some s ->
  h ∈ l \/ closed s = true ->
  exists s', rx (foldl (fun w subscription => unsubscribe subscription w) w l) !! h = Some s'
             /\ closed s' = true.
Proof.
  revert w s. induction l as [|a l IH]; intros w s Hs Hor; simpl.
  - destruct Hor as [Hin | Hclosed]; [by apply elem_of_nil in Hin | eauto].
  - destruct (decide (a = h)) as [-> | Hne].
    + apply (IH _ (cancel s)); [|by right].
      simpl. by rewrite list_lookup_alter_eq, Hs.
    + apply (IH _ s); [simpl; by rewrite list_lookup_alter_ne|].
      destruct Hor as [Hin | Hclosed]; [|by right].
      apply elem_of_cons in Hin as [-> | Hin]; [done | by left].
Qed.

Lemma invariant_unsubscribeAll this self w :
  invariant w ->
  handlers w !! this = Some self ->
  invariant (set_subscriptions this (fun _ => ∅)
               (foldl (fun w subscription => unsubscribe subscription w) w
                  (map_to_list (subscriptions self)).*2)).
Proof.
  intros Hinv Hthis.
  pose proof (rx_step_unsubscribe_all (map_to_list (subscriptions self)).*2 w) as Hstep.
  apply invariant_set_subscriptions; [by eapply rx_step_invariant| |done].
  intros h s self' Hs Hopen Howner Hself' Hentry. exfalso.
  rewrite (step_handlers _ _ Hstep), Hthis in Hself'. injection Hself' as <-.
  pose proof (rx_step_open _ _ _ _ Hstep Hs Hopen) as Hbefore.
  destruct (unsubscribe_all_closed (map_to_list (subscriptions self)).*2 w h s Hbefore)
    as (s' & Hs' & Hclosed).
  { left. apply list_elem_of_fmap. exists (observer_id s, h). split; [done|].
    by apply elem_of_map_to_list. }
  congruence.
Qed.

(** The fold and the table update do not look at the listeners. *)
Lemma unsubscribe_all_with_listeners l L w :
  foldl (fun w subscription => unsubscribe subscription w) (with_listeners L w) l
  = with_listeners L (foldl (fun w subscription => unsubscribe subscription w) w l).
Proof. revert w. induction l as [|a l IH]; intros w; simpl; [done|]. by rewrite <- IH. Qed.

Lemma unregisterProxy_registered channel server self w :
  registrations w !! channel = Some (Some server) ->
  handlers w !! server = Some self ->
  unregisterProxy channel w
  = (Return tt,
     with_registrations (<[channel := None]> (registrations w))
       (with_listeners (delete channel (listeners w))
          (set_subscriptions server (fun _ => ∅)
             (foldl (fun w subscription => unsubscribe subscription w) w
                (map_to_list (subscriptions self)).*2)))).
Proof.
  intros Hreg Hserver. unfold unregisterProxy.
  unfold mbind at 1, M_bind, bind, modify. unfold mbind at 1, M_bind, bind, gets.
  cbn [registrations with_listeners]. rewrite Hreg.
  unfold mbind, M_bind, bind. rewrite (unsubscribeAll_Some server self) by done.
  rewrite unsubscribe_all_with_listeners.
  unfold modify, set_subscriptions, with_handlers, with_listeners, with_registrations.
  cbn [registrations handlers listeners rx once_destroyed sent].
  by rewrite (step_registrations _ _ (rx_step_unsubscribe_all _ w)).
Qed.

Lemma unregisterProxy_unregistered channel w :
  truthy_at channel (registrations w !! channel) = false ->
  unregisterProxy channel w
  = (Throw (Error ("No proxy is registered on channel " ++ channel)),
     with_listeners (delete channel (listeners w)) w).
Proof.
  intros H. unfold unregisterProxy. msimpl.
  destruct (registrations w !! channel) as [[?|]|]; try done.
  simpl in H. by rewrite H.
Qed.

(** The inherited value under the channel's name has no [unsubscribeAll]. *)
Lemma unregisterProxy_inherited channel w :
  registrations w !! channel = None ->
  inherited channel = true ->
  unregisterProxy channel w
  = (Throw (TypeError "server.unsubscribeAll is not a function"),
     with_listeners (delete channel (listeners w)) w).
Proof. intros H Hinh. unfold unregisterProxy. msimpl. by rewrite H, Hinh. Qed.

(** Without a handler under the channel only the listeners go. *)
Lemma unregisterProxy_unregistered_world channel w :
  truthy (registrations w !! channel) = false ->
  (unregisterProxy channel w).2 = with_listeners (delete channel (listeners w)) w.
Proof.
  intros H. unfold unregisterProxy. msimpl.
  destruct (registrations w !! channel) as [[?|]|]; try done.
  by destruct (inherited channel).
Qed.

(** Clearing a channel: its listeners go, its entry becomes [null]. *)
Lemma invariant_clear_channel channel R L w :
  invariant w ->
  R = registrations w ->
  L = listeners w ->
  inherited channel = false ->
  invariant (with_registrations (<[channel := None]> R)
               (with_listeners (delete channel L) w)).
Proof.
  intros [Hreg Hlis Htab Honc Hcha Hown Hcbs] -> -> Hinh. split; try done.
  - intros other server. simpl. intros H.
    destruct (decide (channel = other)) as [-> | Hne].
    + by rewrite lookup_insert_eq in H.
    + rewrite lookup_insert_ne in H by done. rewrite lookup_delete_ne by done.
      by apply Hreg.
  - intros other. simpl. intros H.
    destruct (decide (channel = other)) as [-> | Hne].
    + apply lookup_delete_eq.
    + rewrite lookup_insert_ne in H by done. rewrite lookup_delete_ne by done.
      by apply Hlis.
  - intros other Hother. simpl.
    rewrite lookup_insert_ne by congruence. by apply Hcha.
Qed.

(** A channel that holds an entry is not named like an inherited property. *)
Lemma registered_not_inherited channel w :
  invariant w -> is_Some (registrations w !! channel) -> inherited channel = false.
Proof.
  intros Hinv [x Hx]. destruct (inherited channel) eqn:Hinh; [|done].
  rewrite (inv_cha _ Hinv channel Hinh) in Hx. done.
Qed.


Lemma invariant_unregisterProxy channel w :
  invariant w -> invariant (unregisterProxy channel w).2.
Proof.
  intros Hinv.
  destruct (registrations w !! channel) as [[server|]|] eqn:Hreg.
  - destruct (inv_reg _ Hinv channel server Hreg) as [_ [self Hself]].
    rewrite (unregisterProxy_registered _ _ _ _ Hreg Hself). simpl.
    pose proof (rx_step_unsubscribe_all (map_to_list (subscriptions self)).*2 w) as Hstep.
    apply invariant_clear_channel.
    + by apply invariant_unsubscribeAll.
    + simpl. symmetry. apply (step_registrations _ _ Hstep).
    + simpl. symmetry. apply (step_listeners _ _ Hstep).
    + apply (registered_not_inherited channel w Hinv). by rewrite Hreg.
  - rewrite unregisterProxy_unregistered_world by (by rewrite Hreg). simpl.
    destruct Hinv as [Hr Hl Ht Ho Hc Hi Hk]. split; try done.
    + intros other server H. simpl in *.
      rewrite lookup_delete_ne by congruence. by apply Hr.
    + intros other H. simpl in *.
      destruct (decide (channel = other)) as [-> | Hne];
        [apply lookup_delete_eq | rewrite lookup_delete_ne by done; by apply Hl].
  - rewrite unregisterProxy_unregistered_world by (by rewrite Hreg). simpl.
    destruct Hinv as [Hr Hl Ht Ho Hc Hi Hk]. split; try done.
    + intros other server H. simpl in *.
      rewrite lookup_delete_ne by congruence. by apply Hr.
    + intros other H. simpl in *.
      destruct (decide (channel = other)) as [-> | Hne];
        [apply lookup_delete_eq | rewrite lookup_delete_ne by done; by apply Hl].
Qed.

Lemma invariant_registerProxy obj descriptor w :
  invariant w -> invariant (registerProxy obj descriptor w).2.
Proof.
  intros Hinv.
  destruct (registerProxy_cases descriptor w) as [[server Hreg] | [[Hreg Hinh] | Htruthy]].
  - by rewrite (registerProxy_duplicate _ _ _ _ Hreg).
  - by rewrite (registerProxy_inherited _ _ _ Hreg Hinh).
  - rewrite registerProxy_fresh by done. simpl.
    destruct Hinv as [Hr Hl Ht Ho Hc Hi Hk].
    rewrite (Hl (channel descriptor) (truthy_at_truthy _ _ Htruthy)). simpl.
    split.
    + intros other server. simpl. intros H.
      destruct (decide (channel descriptor = other)) as [<- | Hne].
      * rewrite lookup_insert_eq in H. injection H as <-.
        rewrite lookup_insert_eq. split; [done|].
        apply lookup_lt_is_Some. rewrite length_app. simpl. lia.
      * rewrite lookup_insert_ne in H by done. rewrite lookup_insert_ne by done.
        destruct (Hr other server H) as [? [self Hself]]. split; [done|].
        exists self. by apply lookup_app_l_Some.
    + intros other. simpl. intros H.
      destruct (decide (channel descriptor = other)) as [<- | Hne].
      * by rewrite lookup_insert_eq in H.
      * rewrite lookup_insert_ne in H by done. rewrite lookup_insert_ne by done.
        by apply Hl.
    + intros h s Hs Hopen. simpl in *.
      destruct (Ht h s Hs Hopen) as (self & Hself & Hentry).
      exists self. split; [by apply lookup_app_l_Some | done].
    + exact Ho.
    + intros other Hother. simpl.
      destruct (decide (channel descriptor = other)) as [<- | Hne].
      * rewrite (Hc _ Hother) in Htruthy. simpl in Htruthy. congruence.
      * rewrite lookup_insert_ne by done. by apply Hc.
    + intros this self subscriptionId Hself Hinh. simpl in Hself.
      apply lookup_app_Some in Hself as [Hself | [_ Hself]]; [by eapply Hi|].
      destruct (this - length (handlers w)) as [|k]; simpl in Hself; [|done].
      by injection Hself as <-.
    + intros cb Hin. simpl in *. destruct (Hk cb Hin) as [[self Hself] Hinh].
      split; [|done]. exists self. by apply lookup_app_l_Some.
Qed.

(** [handleSubscribe] on a stream shaped member. *)
Lemma handleSubscribe_observable this self propKey subscriptionId sender o w :
  handlers w !! this = Some self ->
  subscriptions self !! subscriptionId = None ->
  inherited subscriptionId = false ->
  get_prop (target self) propKey = Return (VObservable o) ->
  handleSubscribe this propKey subscriptionId sender w
  = (Return undefined, opened this subscriptionId sender o w).
Proof.
  intros Hthis Hsub Hinh Hget. unfold handleSubscribe. msimpl.
  rewrite Hthis. simpl. rewrite Hsub, Hinh.
  rewrite bool_decide_eq_false_2 by (intros [? ?]; discriminate).
  simpl. rewrite Hget. simpl. reflexivity.
Qed.

(** An id that the table holds or inherits is refused (line 89). *)
Lemma handleSubscribe_taken this self propKey subscriptionId sender w :
  handlers w !! this = Some self ->
  is_Some (subscriptions self !! subscriptionId) \/ inherited subscriptionId = true ->
  handleSubscribe this propKey subscriptionId sender w
  = (Throw (Error ("A subscription with Id [" ++ subscriptionId ++ "] already exists")), w).
Proof.
  intros Hthis Htaken. unfold handleSubscribe. msimpl. rewrite Hthis. simpl.
  destruct Htaken as [Hsome | Hinh].
  - by rewrite bool_decide_eq_true_2.
  - by rewrite Hinh, orb_true_r.
Qed.

Lemma handleSubscribe_cases this propKey subscriptionId sender w :
  (handleSubscribe this propKey subscriptionId sender w).2 = w \/
  exists self o,
    handlers w !! this = Some self /\
    subscriptions self !! subscriptionId = None /\
    inherited subscriptionId = false /\
    (handleSubscribe this propKey subscriptionId sender w).2
    = opened this subscriptionId sender o w.
Proof.
  destruct (handlers w !! this) as [self|] eqn:Hthis;
    [|left; unfold handleSubscribe; msimpl; by rewrite Hthis].
  destruct (subscriptions self !! subscriptionId) as [h|] eqn:Hsub.
  { left. rewrite (handleSubscribe_taken _ self) by (rewrite ?Hsub; eauto). done. }
  destruct (inherited subscriptionId) eqn:Hinh.
  { left. rewrite (handleSubscribe_taken _ self) by eauto. done. }
  destruct (get_prop (target self) propKey) as [v|e] eqn:Hget.
  - destruct (isObservable v) eqn:Hobs.
    + apply isObservable_inv in Hobs as [o ->]. right. exists self, o.
      by rewrite (handleSubscribe_observable _ _ _ _ _ _ _ Hthis Hsub Hinh Hget).
    + left. pose proof (handleSubscribe_not_observable this self propKey None
                          subscriptionId sender v w Hthis Hsub Hinh Hget Hobs) as H.
      simpl in H. by rewrite H.
  - left. unfold handleSubscribe. msimpl. rewrite Hthis. simpl. rewrite Hsub, Hinh.
    rewrite bool_decide_eq_false_2 by (intros [? ?]; discriminate).
    simpl. by rewrite Hget.
Qed.

(** Up to the table update the new subscription is the only change. *)
Lemma rx_step_opened subscription new evs w :
  rx_step (with_rx (rx w ++ [new]) w)
    (foldl (fun w n => notify subscription n w) (with_rx (rx w ++ [new]) w) evs).
Proof. apply rx_step_foldl. intros. apply rx_step_notify. Qed.

Lemma invariant_opened this self subscriptionId sender o w :
  invariant w ->
  handlers w !! this = Some self ->
  subscriptions self !! subscriptionId = None ->
  inherited subscriptionId = false ->
  invariant (opened this subscriptionId sender o w).
Proof.
  intros [Hreg Hlis Htab Honc Hcha Hown Hcbs] Hthis Hsub Hinh. unfold opened.
  set (new := MkSubscription false 0 sender subscriptionId this).
  pose proof (rx_step_opened (length (rx w)) new (on_subscribe o) w) as Hstep.
  set (w1 := foldl _ _ _) in *.
  pose proof Hstep as [Hr Hh Hl Ho Hlen Hle]. simpl in Hr, Hh, Hl, Ho, Hlen.
  assert (Hold : forall h s, rx w1 !! h = Some s -> closed s = false ->
                   rx w !! h = Some s \/ (h = length (rx w) /\ s = new)).
  { intros h s Hs Hopen. pose proof (rx_step_open _ _ _ _ Hstep Hs Hopen) as H.
    simpl in H. apply lookup_app_Some in H as [H | [Hge H]]; [by left|].
    right. destruct (h - length (rx w)) as [|k] eqn:Hk; simpl in H; [|done].
    injection H as <-. split; [lia | done]. }
  split.
  - intros channel server H. simpl in *. rewrite Hr in H. rewrite Hl.
    destruct (Hreg channel server H) as [? Hsome]. split; [done|].
    apply lookup_lt_is_Some. rewrite length_alter, Hh. by apply lookup_lt_is_Some.
  - intros channel H. simpl in *. rewrite Hr in H. rewrite Hl. by apply Hlis.
  - intros h s Hs Hopen. simpl in Hs. simpl.
    destruct (Hold h s Hs Hopen) as [Hbefore | [-> ->]].
    + destruct (Htab h s Hbefore Hopen) as (self' & Hself' & Hentry).
      destruct (decide (this = owner s)) as [Heq | Hne].
      * rewrite <- Heq in *. rewrite Hthis in Hself'. injection Hself' as <-.
        eexists. rewrite list_lookup_alter_eq, Hh, Hthis. split; [done|]. simpl.
        rewrite lookup_insert_ne; [done|]. intros Hid. rewrite <- Hid in Hentry. congruence.
      * exists self'. rewrite list_lookup_alter_ne, Hh by done. by split.
    + simpl. eexists. rewrite list_lookup_alter_eq, Hh, Hthis. split; [done|]. simpl.
      apply lookup_insert_eq.
  - intros h s Hs Hopen. simpl in Hs. simpl. rewrite Ho. apply elem_of_app.
    destruct (Hold h s Hs Hopen) as [Hbefore | [-> ->]].
    + left. by eapply Honc.
    + right. simpl. apply list_elem_of_singleton. reflexivity.
  - intros channel Hchannel. simpl. rewrite Hr. by apply Hcha.
  - intros other self' subscriptionId' Hself' Hother. simpl in Hself'.
    destruct (decide (this = other)) as [<- | Hne].
    + rewrite list_lookup_alter_eq, Hh, Hthis in Hself'. injection Hself' as <-. simpl.
      rewrite lookup_insert_ne by congruence. by eapply Hown.
    + rewrite list_lookup_alter_ne, Hh in Hself' by done. by eapply Hown.
  - intros cb Hin. simpl in Hin. rewrite Ho in Hin. simpl.
    assert (Hkeep : forall i, is_Some (handlers w !! i) ->
              is_Some (alter (fun self0 => MkHandler (target self0)
                                 (<[subscriptionId := length (rx w)]> (subscriptions self0)))
                         this (handlers w1) !! i)).
    { intros i Hsome. apply lookup_lt_is_Some. rewrite length_alter, Hh.
      by apply lookup_lt_is_Some. }
    apply elem_of_app in Hin as [Hin | Hin].
    + destruct (Hcbs cb Hin) as [Hsome Hcb]. split; [by apply Hkeep | done].
    + apply list_elem_of_singleton in Hin as ->. simpl. split; [|done].
      apply Hkeep. by rewrite Hthis.
Qed.

(** ** Every action keeps the invariants *)

Lemma evolves_refl w : evolves w w.
Proof. split; [done | apply rx_le_refl]. Qed.

Lemma evolves_trans w1 w2 w3 : evolves w1 w2 -> evolves w2 w3 -> evolves w1 w3.
Proof. intros [] []. split; [auto | by eapply rx_le_trans]. Qed.

Lemma evolves_rx_step w w' : rx_step w w' -> evolves w w'.
Proof. intros H. split; [by apply rx_step_invariant | apply (step_rx _ _ H)]. Qed.

Lemma evolves_foldl {A} (f : World -> A -> World) (l : list A) w :
  (forall w a, evolves w (f w a)) -> evolves w (foldl f w l).
Proof.
  intros Hf. revert w. induction l as [|a l IH]; intros w; simpl.
  - apply evolves_refl.
  - eapply evolves_trans; [apply Hf | apply IH].
Qed.

Lemma evolves_doUnsubscribe this subscriptionId w :
  evolves w (doUnsubscribe this subscriptionId w).2.
Proof.
  split; [apply invariant_doUnsubscribe|].
  destruct (doUnsubscribe_cases this subscriptionId w)
    as [-> | (self & subscription & _ & _ & ->)]; [apply rx_le_refl|].
  simpl. apply rx_le_alter, sub_le_cancel.
Qed.

Lemma handleGet_world this propKey w : (handleGet this propKey w).2 = w.
Proof.
  unfold handleGet. msimpl. destruct (handlers w !! this) as [self|]; simpl; [|done].
  by destruct (get_prop (target self) propKey).
Qed.

Lemma handleApply_world this propKey args w : (handleApply this propKey args w).2 = w.
Proof.
  unfold handleApply. msimpl. destruct (handlers w !! this) as [self|]; simpl; [|done].
  destruct (get_prop (target self) propKey) as [v|]; simpl; [|done].
  destruct v as [| | |f]; simpl; try done; by destruct (f None args).
Qed.

Lemma handleUnsubscribe_world this subscriptionId w :
  (handleUnsubscribe this subscriptionId w).2 = (doUnsubscribe this subscriptionId w).2.
Proof.
  destruct (handlers w !! this) as [self|] eqn:Hthis.
  - destruct (subscriptions self !! subscriptionId) as [h|] eqn:Hsub.
    + by rewrite (handleUnsubscribe_present _ _ _ _ _ Hthis Hsub),
        (doUnsubscribe_present _ _ _ _ _ Hthis Hsub).
    + destruct (inherited subscriptionId) eqn:Hinh.
      * by rewrite (handleUnsubscribe_inherited _ _ _ _ Hthis Hsub Hinh),
          (doUnsubscribe_inherited _ _ _ _ Hthis Hsub Hinh).
      * by rewrite (handleUnsubscribe_absent _ _ _ _ Hthis Hsub Hinh),
          (doUnsubscribe_absent _ _ _ _ Hthis Hsub Hinh).
  - rewrite doUnsubscribe_dangling by done.
    unfold handleUnsubscribe. msimpl. by rewrite Hthis.
Qed.

Lemma evolves_handleSubscribe this propKey subscriptionId sender w :
  evolves w (handleSubscribe this propKey subscriptionId sender w).2.
Proof.
  destruct (handleSubscribe_cases this propKey subscriptionId sender w)
    as [-> | (self & o & Hthis & Hsub & Hinh & ->)]; [apply evolves_refl|].
  split; [intros; by eapply invariant_opened|].
  unfold opened. simpl.
  eapply rx_le_trans; [apply rx_le_app|].
  apply (step_rx _ _ (rx_step_opened (length (rx w)) _ (on_subscribe o) w)).
Qed.

Lemma evolves_handleRequest this request sender w :
  evolves w (handleRequest this request sender w).2.
Proof.
  destruct request; simpl.
  - rewrite handleGet_world. apply evolves_refl.
  - rewrite handleApply_world. apply evolves_refl.
  - apply evolves_handleSubscribe.
  - rewrite handleUnsubscribe_world. apply evolves_doUnsubscribe.
  - apply evolves_refl.
Qed.

Lemma evolves_listener server sender request correlationId w :
  evolves w (listener server sender request correlationId w).
Proof.
  unfold listener.
  pose proof (evolves_handleRequest server request sender w) as H.
  destruct (handleRequest server request sender w) as [c w']. simpl in H.
  destruct (settle c); try done;
    (eapply evolves_trans; [exact H | apply evolves_rx_step, rx_step_send]).
Qed.

Lemma evolves_unregisterProxy channel w : evolves w (unregisterProxy channel w).2.
Proof.
  split; [apply invariant_unregisterProxy|].
  destruct (registrations w !! channel) as [[server|]|] eqn:Hreg.
  - destruct (handlers w !! server) as [self|] eqn:Hself.
    + rewrite (unregisterProxy_registered _ _ _ _ Hreg Hself). simpl.
      apply (step_rx _ _ (rx_step_unsubscribe_all _ w)).
    + unfold unregisterProxy, unsubscribeAll. msimpl. rewrite Hreg. simpl.
      rewrite Hself. simpl. apply rx_le_refl.
  - rewrite unregisterProxy_unregistered_world by (by rewrite Hreg). apply rx_le_refl.
  - rewrite unregisterProxy_unregistered_world by (by rewrite Hreg). apply rx_le_refl.
Qed.

Lemma evolves_registerProxy obj descriptor w :
  evolves w (registerProxy obj descriptor w).2.
Proof.
  split; [apply invariant_registerProxy|].
  destruct (truthy_at (channel descriptor) (registrations w !! channel descriptor))
    eqn:Htruthy.
  - rewrite registerProxy_refused by done. apply rx_le_refl.
  - rewrite registerProxy_fresh by done. apply rx_le_refl.
Qed.

(** ** The ['destroyed'] event *)

Lemma doUnsubscribe_with_once o this subscriptionId w :
  (doUnsubscribe this subscriptionId (with_once_destroyed o w)).2
  = with_once_destroyed o (doUnsubscribe this subscriptionId w).2.
Proof.
  unfold doUnsubscribe. msimpl. destruct (handlers w !! this) as [self|]; simpl; [|done].
  destruct (subscriptions self !! subscriptionId); [done|].
  by destruct (inherited subscriptionId).
Qed.

Lemma run_callbacks_with_once o l w :
  run_callbacks l (with_once_destroyed o w) = with_once_destroyed o (run_callbacks l w).
Proof.
  revert w. induction l as [|cb l IH]; intros w; simpl; [done|].
  unfold run_callbacks in *. simpl. by rewrite doUnsubscribe_with_once, IH.
Qed.

Lemma destroyed_eq sender w :
  destroyed sender w
  = with_once_destroyed (filter (fun cb => cb.1 ≠ sender) (once_destroyed w))
      (run_callbacks (filter (fun cb => cb.1 = sender) (once_destroyed w)) w).
Proof. unfold destroyed. apply run_callbacks_with_once. Qed.

(** A callback changes neither the pending callbacks, nor the messages sent,
    nor the number of subscriptions. *)
Lemma doUnsubscribe_frame this subscriptionId w :
  let w' := (doUnsubscribe this subscriptionId w).2 in
  once_destroyed w' = once_destroyed w /\ sent w' = sent w /\
  length (rx w') = length (rx w) /\ length (handlers w') = length (handlers w).
Proof.
  destruct (doUnsubscribe_cases this subscriptionId w)
    as [-> | (self & subscription & _ & _ & ->)]; [done|].
  simpl. by rewrite !length_alter.
Qed.

Lemma run_callbacks_frame l w :
  let w' := run_callbacks l w in
  once_destroyed w' = once_destroyed w /\ sent w' = sent w /\
  length (rx w') = length (rx w) /\ length (handlers w') = length (handlers w).
Proof.
  revert w. induction l as [|cb l IH]; intros w; simpl; [done|].
  destruct (IH (doUnsubscribe cb.2.1 cb.2.2 w).2) as (-> & -> & -> & ->).
  apply doUnsubscribe_frame.
Qed.

Lemma evolves_run_callbacks l w : evolves w (run_callbacks l w).
Proof. apply evolves_foldl. intros. apply evolves_doUnsubscribe. Qed.

(** A callback for the entry of an open subscription closes it. *)
Lemma doUnsubscribe_closes h s w :
  inv_table w -> rx w !! h = Some s -> closed s = false ->
  rx (doUnsubscribe (owner s) (observer_id s) w).2 !! h = Some (cancel s).
Proof.
  intros Htab Hs Hopen. destruct (Htab h s Hs Hopen) as (self & Hself & Hentry).
  rewrite (doUnsubscribe_present _ _ _ _ _ Hself Hentry). simpl.
  by rewrite list_lookup_alter_eq, Hs.
Qed.

(** After the callbacks, a subscription one of them names is closed. *)
Lemma run_callbacks_closes l w h s :
  invariant w ->
  rx w !! h = Some s ->
  (owner s, observer_id s) ∈ l.*2 \/ closed s = true ->
  exists s', rx (run_callbacks l w) !! h = Some s' /\ closed s' = true /\ sub_le s s'.
Proof.
  revert w s. induction l as [|cb l IH]; intros w s Hinv Hs Hor.
  - destruct Hor as [Hin | Hclosed]; [by apply elem_of_nil in Hin|].
    exists s. repeat split; [done.. | apply sub_le_refl].
  - simpl. pose proof (evolves_doUnsubscribe cb.2.1 cb.2.2 w) as [Hinv' Hle].
    destruct (Hle h s Hs) as (s1 & Hs1 & Hsub1).
    assert (Hor1 : (owner s1, observer_id s1) ∈ l.*2 \/ closed s1 = true).
    { destruct (closed s1) eqn:Hc1; [by right|].
      pose proof (sub_le_open _ _ Hsub1 Hc1) as ->.
      destruct Hor as [Hin | Hclosed]; [|congruence].
      apply elem_of_cons in Hin as [Heq | Hin]; [|by left].
      exfalso. rewrite <- Heq in Hs1. simpl in Hs1.
      rewrite (doUnsubscribe_closes h s w (inv_tab _ Hinv) Hs Hc1) in Hs1.
      injection Hs1 as Hs1. rewrite <- Hs1 in Hc1. discriminate. }
    destruct (IH _ s1 (Hinv' Hinv) Hs1 Hor1) as (s' & Hs' & Hclosed & Hsub).
    exists s'. repeat split; [done.. | by eapply sub_le_trans].
Qed.

(** Tables only lose entries under callbacks. *)
Lemma doUnsubscribe_absent_stable this subscriptionId this' subscriptionId' w :
  absent this subscriptionId w ->
  absent this subscriptionId (doUnsubscribe this' subscriptionId' w).2.
Proof.
  intros Habs.
  destruct (doUnsubscribe_cases this' subscriptionId' w)
    as [-> | (self' & subscription & Hthis' & _ & ->)]; [done|].
  intros self. simpl. destruct (decide (this' = this)) as [-> | Hne].
  - rewrite list_lookup_alter_eq, Hthis'. simpl. intros [= <-]. simpl.
    destruct (decide (subscriptionId' = subscriptionId)) as [-> | Hid].
    + apply lookup_delete_eq.
    + rewrite lookup_delete_ne by done. by apply Habs.
  - rewrite list_lookup_alter_ne by done. apply Habs.
Qed.

Lemma doUnsubscribe_deletes this subscriptionId w :
  absent this subscriptionId (doUnsubscribe this subscriptionId w).2.
Proof.
  destruct (handlers w !! this) as [self|] eqn:Hthis.
  - destruct (subscriptions self !! subscriptionId) as [h|] eqn:Hsub.
    + rewrite (doUnsubscribe_present _ _ _ _ _ Hthis Hsub). intros self'. simpl.
      rewrite list_lookup_alter_eq, Hthis. simpl. intros [= <-]. simpl.
      apply lookup_delete_eq.
    + rewrite (doUnsubscribe_none _ _ _ _ Hthis Hsub). intros self' H. congruence.
  - rewrite doUnsubscribe_dangling by done. intros self' H. congruence.
Qed.

Lemma run_callbacks_absent_stable l this subscriptionId w :
  absent this subscriptionId w -> absent this subscriptionId (run_callbacks l w).
Proof.
  revert w. induction l as [|cb l IH]; intros w Habs; [done|].
  simpl. apply IH. by apply doUnsubscribe_absent_stable.
Qed.

Lemma run_callbacks_deletes l this subscriptionId w :
  (this, subscriptionId) ∈ l.*2 -> absent this subscriptionId (run_callbacks l w).
Proof.
  revert w. induction l as [|cb l IH]; intros w Hin; [by apply elem_of_nil in Hin|].
  simpl. apply elem_of_cons in Hin as [Heq | Hin]; [|by apply IH].
  apply run_callbacks_absent_stable. rewrite <- Heq. apply doUnsubscribe_deletes.
Qed.

Lemma invariant_destroyed sender w : invariant w -> invariant (destroyed sender w).
Proof.
  intros Hinv. rewrite destroyed_eq.
  set (mine := filter (fun cb => cb.1 = sender) (once_destroyed w)).
  pose proof (evolves_invariant _ _ (evolves_run_callbacks mine w) Hinv) as Hinv2.
  destruct (run_callbacks_frame mine w) as (Honce & _ & Hlen & _).
  destruct Hinv2 as [Hr Hl Ht Ho Hc Hi Hk]. split; try done.
  - intros h s Hs Hopen. simpl in *.
    pose proof (Ho h s Hs Hopen) as Hin. rewrite Honce in Hin.
    apply list_elem_of_filter. split; [|done]. simpl. intros Hsender.
    assert (Hlt : h < length (rx w)) by (rewrite <- Hlen; by eapply lookup_lt_Some).
    destruct (lookup_lt_is_Some_2 _ _ Hlt) as [s0 Hs0].
    destruct (evolves_rx _ _ (evolves_run_callbacks mine w) h s0 Hs0) as (s1 & Hs1 & Hsub).
    rewrite Hs in Hs1. injection Hs1 as <-.
    pose proof (sub_le_open _ _ Hsub Hopen) as ->.
    destruct (run_callbacks_closes mine w h s0 Hinv Hs0) as (s' & Hs' & Hclosed & _).
    { left. apply list_elem_of_fmap. exists (observer_sender s0, (owner s0, observer_id s0)).
      split; [done|]. apply list_elem_of_filter. by split. }
    congruence.
  - intros cb Hin. simpl in *. apply list_elem_of_filter in Hin as [_ Hin].
    apply Hk. by rewrite Honce.
Qed.

(** A callback whose handler exists and whose id is not an inherited name
    returns. *)
Lemma doUnsubscribe_returns this subscriptionId w :
  is_Some (handlers w !! this) -> inherited subscriptionId = false ->
  (doUnsubscribe this subscriptionId w).1 = Return tt.
Proof.
  intros [self Hthis] Hinh.
  destruct (subscriptions self !! subscriptionId) as [h|] eqn:Hsub.
  - by rewrite (doUnsubscribe_present _ _ _ _ _ Hthis Hsub).
  - by rewrite (doUnsubscribe_absent _ _ _ _ Hthis Hsub Hinh).
Qed.

Lemma callbacks_return_all l w :
  (forall cb, cb ∈ l -> is_Some (handlers w !! cb.2.1) /\ inherited cb.2.2 = false) ->
  callbacks_return l w.
Proof.
  revert w. induction l as [|cb l IH]; intros w Hl; simpl; [done|].
  destruct (Hl cb) as [Hsome Hinh]; [apply list_elem_of_here|].
  split; [by apply doUnsubscribe_returns|].
  apply IH. intros cb' Hin. destruct (Hl cb') as [Hsome' Hinh']; [by apply list_elem_of_further|].
  split; [|done]. apply lookup_lt_is_Some.
  destruct (doUnsubscribe_frame cb.2.1 cb.2.2 w) as (_ & _ & _ & ->).
  by apply lookup_lt_is_Some.
Qed.

Lemma evolves_destroyed sender w : evolves w (destroyed sender w).
Proof.
  split; [apply invariant_destroyed|].
  rewrite destroyed_eq. simpl. apply (evolves_rx _ _ (evolves_run_callbacks _ w)).
Qed.

Lemma evolves_exec a w : evolves w (exec a w).
Proof.
  destruct a; simpl.
  - apply evolves_registerProxy.
  - apply evolves_unregisterProxy.
  - apply evolves_foldl. intros. apply evolves_listener.
  - apply evolves_destroyed.
  - apply evolves_rx_step, rx_step_notify.
  - apply evolves_rx_step, rx_step_late_reply.
Qed.

Lemma evolves_run l w : evolves w (run l w).
Proof. apply evolves_foldl. intros. apply evolves_exec. Qed.

Lemma invariant_initial : invariant initial.
Proof.
  split; try (intros ?; simpl; intros; done).
  intros cb Hin. by apply elem_of_nil in Hin.
Qed.

Lemma reachable_invariant w : reachable w -> invariant w.
Proof.
  intros [l ->]. apply (evolves_invariant _ _ (evolves_run l initial)), invariant_initial.
Qed.

(** In a reachable world the callbacks of a ['destroyed'] event all return. *)
Lemma destroyed_returns sender w :
  reachable w ->
  callbacks_return (filter (fun cb => cb.1 = sender) (once_destroyed w))
    (with_once_destroyed (filter (fun cb => cb.1 ≠ sender) (once_destroyed w)) w).
Proof.
  intros Hreach. apply callbacks_return_all. intros cb Hin.
  apply list_elem_of_filter in Hin as [_ Hin].
  apply (inv_cbs _ (reachable_invariant _ Hreach) cb Hin).
Qed.

Lemma reachable_run l w : reachable w -> reachable (run l w).
Proof.
  intros [l0 ->]. exists (l0 ++ l)%list. unfold run. by rewrite foldl_app.
Qed.

(** A closed subscription stays closed, whatever happens. *)
Lemma closed_forever l w h s :
  rx w !! h = Some s -> closed s = true ->
  exists s', rx (run l w) !! h = Some s' /\ closed s' = true.
Proof. intros. eapply rx_le_closed; [apply (evolves_rx _ _ (evolves_run l w)) | done..]. Qed.

(** Nothing reaches the observers of a closed subscription. *)
Lemma notify_closed h s n w :
  rx w !! h = Some s -> closed s = true -> notify h n w = w.
Proof. intros Hs Hclosed. unfold notify. by rewrite Hs, Hclosed. Qed.

Lemma doUnsubscribe_rx this subscriptionId h s w :
  rx w !! h = Some s ->
  rx (doUnsubscribe this subscriptionId w).2 !! h = Some s \/
  rx (doUnsubscribe this subscriptionId w).2 !! h = Some (cancel s).
Proof.
  intros Hs.
  destruct (doUnsubscribe_cases this subscriptionId w)
    as [-> | (self & subscription & _ & _ & ->)]; [by left|].
  simpl. destruct (decide (subscription = h)) as [-> | Hne].
  - right. by rewrite list_lookup_alter_eq, Hs.
  - left. by rewrite list_lookup_alter_ne.
Qed.

(** The callbacks call [unsubscribe()] on an open subscription one of them
    names. *)
Lemma run_callbacks_cancels l w h s :
  invariant w ->
  rx w !! h = Some s -> closed s = false ->
  (owner s, observer_id s) ∈ l.*2 ->
  exists s', rx (run_callbacks l w) !! h = Some s' /\ closed s' = true /\
             unsubscribe_calls s < unsubscribe_calls s'.
Proof.
  revert w. induction l as [|cb l IH]; intros w Hinv Hs Hopen Hin.
  - by apply elem_of_nil in Hin.
  - simpl. pose proof (evolves_doUnsubscribe cb.2.1 cb.2.2 w) as [Hinv' _].
    destruct (doUnsubscribe_rx cb.2.1 cb.2.2 h s w Hs) as [Hsame | Hcancelled].
    + apply IH; [by apply Hinv' | done..|].
      apply elem_of_cons in Hin as [Heq | Hin]; [|done].
      exfalso. rewrite <- Heq in Hsame. simpl in Hsame.
      rewrite (doUnsubscribe_closes h s w (inv_tab _ Hinv) Hs Hopen) in Hsame.
      injection Hsame as Hsame. rewrite <- Hsame in Hopen. discriminate.
    + destruct (evolves_rx _ _ (evolves_run_callbacks l _) h _ Hcancelled)
        as (s' & Hs' & Hsub).
      exists s'. split; [done|]. split; [by eapply sub_le_closed|].
      apply sub_le_calls in Hsub. simpl in Hsub. lia.
Qed.

(** ** [Unsubscribe], from the request *)





(** ** Streams that end by themselves *)

(** C4, as stated: when the stream of an open subscription errors or
    completes, the entry of its id leaves the subscription table. That fails:
    with [observableHot] subscribed under [s1], its completion leaves the
    entry where it was. *)
Lemma termination_drops_entry_counterexample :
  ~ (forall w h s n self,
       reachable w ->
       rx w !! h = Some s -> closed s = false -> terminal n = true ->
       handlers (exec (Emit h n) w) !! owner s = Some self ->
       subscriptions self !! observer_id s = None).
Proof.
  intros H.
  specialize (H subscribed_world 0 (MkSubscription false 0 7 "s1" 0) OnComplete
                (MkHandler ProxiedClass {[ "s1" := 0 ]})).
  assert (Hfalse : ({[ "s1" := 0 ]} : gmap string nat) !! "s1" = None).
  { apply H; try reflexivity.
    exists [Register ProxiedClass descriptor;
            Message "channelName" 7 (SubscribeRequest "observableHot" None "s1") "c1"].
    reflexivity. }
  discriminate Hfalse.
Qed.

(** A stream that completes inside [subscribe], such as [observableProp],
    is closed before its entry is even stored; the entry is stored all the
    same. *)
Example completed_at_once_is_stored :
  let w := exec (Message "channelName" 7 (SubscribeRequest "observableProp" None "s1") "c1")
             registered_world in
  rx w !! 0 = Some (MkSubscription true 0 7 "s1" 0) /\
  handlers w !! 0 = Some (MkHandler ProxiedClass {[ "s1" := 0 ]}).
Proof. split; reflexivity. Qed.

(** C4, amended: when the stream of an open subscription errors or completes,
    the error (serialised) or the completion is sent to the subscriber under
    the subscription id and the subscription is closed; the handlers and
    their subscription tables are left as they were, so the entry of the id
    stays in the table of its handler. *)
Theorem termination_keeps_entry w h s n :
  reachable w ->
  rx w !! h = Some s -> closed s = false -> terminal n = true ->
  let w' := exec (Emit h n) w in
  sent w'
  = (sent w ++ [(observer_sender s, observer_id s,
                 match n with
                 | OnError e => ErrorResponse (Errio_stringify e)
                 | _ => Complete
                 end)])%list /\
  rx w' !! h = Some (stop s) /\
  handlers w' = handlers w /\
  exists self,
    handlers w' !! owner s = Some self /\ subscriptions self !! observer_id s = Some h.
Proof.
  intros Hreach Hs Hopen Hterm. simpl. unfold notify. rewrite Hs, Hopen, Hterm.
  destruct n as [v|e|]; [discriminate | |]; simpl;
    (split; [done|]); (split; [by rewrite list_lookup_alter_eq, Hs|]);
    (split; [done|]); apply (inv_tab _ (reachable_invariant _ Hreach) h s Hs Hopen).
Qed.

Lemma termination_keeps_entry_witness :
  let w' := exec (Emit 0 (OnError (Error "error on stream"))) subscribed_world in
  sent w'
  = (sent subscribed_world
     ++ [(7, "s1", ErrorResponse (Errio_stringify (Error "error on stream")))])%list /\
  rx w' !! 0 = Some (MkSubscription true 0 7 "s1" 0) /\
  handlers w' = handlers subscribed_world /\
  exists self, handlers w' !! 0 = Some self /\ subscriptions self !! "s1" = Some 0.
Proof.
  apply (termination_keeps_entry subscribed_world 0 (MkSubscription false 0 7 "s1" 0)
           (OnError (Error "error on stream"))); try reflexivity.
  exists [Register ProxiedClass descriptor;
          Message "channelName" 7 (SubscribeRequest "observableHot" None "s1") "c1"].
  reflexivity.
Defined.

(** ** Unregistration *)

Lemma registerProxy_returns obj descriptor w f :
  (registerProxy obj descriptor w).1 = Return f -> f = Unregistration (channel descriptor).
Proof.
  destruct (truthy_at (channel descriptor) (registrations w !! channel descriptor))
    eqn:Htruthy.
  - by rewrite registerProxy_refused.
  - rewrite registerProxy_fresh by done. simpl. congruence.
Qed.

(** A registration that succeeds in a reachable world is on a channel that
    is not named like an inherited property. *)
Lemma registerProxy_not_inherited obj descriptor w f :
  reachable w ->
  (registerProxy obj descriptor w).1 = Return f -> inherited (channel descriptor) = false.
Proof.
  intros Hreach Hf. destruct (inherited (channel descriptor)) eqn:Hinh; [|done].
  rewrite registerProxy_inherited in Hf; [done | | done].
  by apply (inv_cha _ (reachable_invariant _ Hreach)).
Qed.

(** C5: the function a successful [registerProxy] returns, called while its
    channel has an active registration, removes the channel's listeners,
    closes every subscription the registered handler owns (and empties its
    table), and stores [null] for the channel; called while the channel has
    none, it throws the error of line 38 (after removing the listeners). Both
    the world of the registration and the world of the call are reachable
    ones. *)
Theorem unregister_function obj descriptor w0 f w :
  reachable w0 ->
  (registerProxy obj descriptor w0).1 = Return f ->
  reachable w ->
  (forall server,
     registrations w !! channel descriptor = Some (Some server) ->
     exists w',
       call f w = (Return tt, w') /\
       listeners w' !! channel descriptor = None /\
       registrations w' !! channel descriptor = Some None /\
       (forall h s, rx w !! h = Some s -> owner s = server ->
          exists s', rx w' !! h = Some s' /\ closed s' = true) /\
       (exists self, handlers w' !! server = Some self /\ subscriptions self = ∅))
  /\
  (registrations w !! channel descriptor = None \/
   registrations w !! channel descriptor = Some None ->
   call f w
   = (Throw (Error ("No proxy is registered on channel " ++ channel descriptor)),
      with_listeners (delete (channel descriptor) (listeners w)) w)).
Proof.
  intros Hreach0 Hf Hreach.
  pose proof (registerProxy_not_inherited _ _ _ _ Hreach0 Hf) as Hinh.
  apply registerProxy_returns in Hf as ->. simpl.
  pose proof (reachable_invariant _ Hreach) as Hinv. split.
  - intros server Hreg.
    destruct (inv_reg _ Hinv _ server Hreg) as [_ [self Hself]].
    eexists. split; [exact (unregisterProxy_registered _ _ _ _ Hreg Hself)|].
    simpl. split; [apply lookup_delete_eq|]. split; [apply lookup_insert_eq|]. split.
    + intros h s Hs Howner.
      apply (unsubscribe_all_closed _ w h s Hs).
      destruct (closed s) eqn:Hopen; [by right|]. left.
      destruct (inv_tab _ Hinv h s Hs Hopen) as (self' & Hself' & Hentry).
      rewrite Howner, Hself in Hself'. injection Hself' as <-.
      apply list_elem_of_fmap. exists (observer_id s, h). split; [done|].
      by apply elem_of_map_to_list.
    + eexists. rewrite list_lookup_alter_eq.
      rewrite (step_handlers _ _ (rx_step_unsubscribe_all _ w)), Hself. done.
  - intros H. by apply unregisterProxy_unregistered, truthy_at_false.
Qed.

Lemma unregister_function_witness :
  (exists w',
     call (Unregistration "channelName") subscribed_world = (Return tt, w') /\
     listeners w' !! "channelName" = None /\
     registrations w' !! "channelName" = Some None /\
     (forall h s, rx subscribed_world !! h = Some s -> owner s = 0 ->
        exists s', rx w' !! h = Some s' /\ closed s' = true) /\
     (exists self, handlers w' !! 0 = Some self /\ subscriptions self = ∅))
  /\
  call (Unregistration "channelName") initial
  = (Throw (Error "No proxy is registered on channel channelName"),
     with_listeners (delete "channelName" (listeners initial)) initial).
Proof.
  split.
  - apply (proj1 (unregister_function ProxiedClass descriptor initial
                    (Unregistration "channelName") subscribed_world
                    (ex_intro _ [] eq_refl) eq_refl
                    (ex_intro _ [Register ProxiedClass descriptor;
                                 Message "channelName" 7
                                   (SubscribeRequest "observableHot" None "s1") "c1"]
                       eq_refl)) 0).
    reflexivity.
  - apply (proj2 (unregister_function ProxiedClass descriptor initial
                    (Unregistration "channelName") initial
                    (ex_intro _ [] eq_refl) eq_refl
                    (ex_intro _ [] eq_refl))).
    left. reflexivity.
Defined.

(** C10: after a channel is unregistered its entry is [null], which the
    check of [registerProxy] takes for absent: registering on the channel
    again succeeds and binds a new handler to it. *)
Theorem channel_reusable obj descriptor server w :
  reachable w ->
  registrations w !! channel descriptor = Some (Some server) ->
  exists w1 w2,
    call (Unregistration (channel descriptor)) w = (Return tt, w1) /\
    registrations w1 !! channel descriptor = Some None /\
    registerProxy obj descriptor w1 = (Return (Unregistration (channel descriptor)), w2) /\
    registrations w2 !! channel descriptor = Some (Some (length (handlers w1))) /\
    handlers w2 !! length (handlers w1) = Some (MkHandler obj ∅) /\
    handlers w1 !! length (handlers w1) = None /\
    listeners w2 !! channel descriptor = Some [length (handlers w1)].
Proof.
  intros Hreach Hreg.
  pose proof (reachable_invariant _ Hreach) as Hinv.
  destruct (inv_reg _ Hinv _ server Hreg) as [_ [self Hself]].
  eexists. eexists. split; [exact (unregisterProxy_registered _ _ _ _ Hreg Hself)|].
  split; [apply lookup_insert_eq|].
  split.
  { apply registerProxy_fresh. simpl. by rewrite lookup_insert_eq. }
  simpl. split; [apply lookup_insert_eq|].
  split; [by rewrite lookup_app_r, Nat.sub_diag|].
  split; [by apply lookup_ge_None_2|].
  by rewrite lookup_insert_eq, lookup_delete_eq.
Qed.

Lemma channel_reusable_witness :
  exists w1 w2,
    call (Unregistration "channelName") registered_world = (Return tt, w1) /\
    registrations w1 !! "channelName" = Some None /\
    registerProxy ProxiedClass descriptor w1 = (Return (Unregistration "channelName"), w2) /\
    registrations w2 !! "channelName" = Some (Some (length (handlers w1))) /\
    handlers w2 !! length (handlers w1) = Some (MkHandler ProxiedClass ∅) /\
    handlers w1 !! length (handlers w1) = None /\
    listeners w2 !! "channelName" = Some [length (handlers w1)].
Proof.
  apply (channel_reusable ProxiedClass descriptor 0 registered_world).
  - eexists. reflexivity.
  - reflexivity.
Defined.

(** Cancelling subscriptions sends nothing. *)
Lemma unsubscribe_all_sent l w :
  sent (foldl (fun w subscription => unsubscribe subscription w) w l) = sent w.
Proof. revert w. induction l as [|a l IH]; intros w; simpl; [done|]. by rewrite IH. Qed.

(** ** The sender goes away *)

(** C7: when the ['destroyed'] event of a sender fires, every subscription of
    that sender that is still open has [unsubscribe()] called on it and is
    closed, its entry is gone from the table of its handler, and nothing is
    sent by the event. From then on, whatever else happens, an emission of
    its stream (a value, an error or the completion) changes nothing, so no
    message is sent for it any more. *)
Theorem destroyed_abandons_silently sender w h s :
  reachable w ->
  rx w !! h = Some s -> closed s = false -> observer_sender s = sender ->
  let w' := exec (Destroyed sender) w in
  (exists s', rx w' !! h = Some s' /\ closed s' = true /\
              unsubscribe_calls s < unsubscribe_calls s') /\
  absent (owner s) (observer_id s) w' /\
  sent w' = sent w /\
  (forall l n, exec (Emit h n) (run l w') = run l w').
Proof.
  intros Hreach Hs Hopen Hsender. simpl.
  pose proof (reachable_invariant _ Hreach) as Hinv.
  rewrite destroyed_eq in *.
  set (mine := filter (fun cb => cb.1 = sender) (once_destroyed w)) in *.
  set (rest := filter (fun cb => cb.1 ≠ sender) (once_destroyed w)) in *.
  assert (Hin : (owner s, observer_id s) ∈ mine.*2).
  { apply list_elem_of_fmap. exists (observer_sender s, (owner s, observer_id s)).
    split; [done|]. apply list_elem_of_filter. split; [done|].
    by apply (inv_onc _ Hinv h s). }
  destruct (run_callbacks_cancels mine w h s Hinv Hs Hopen Hin)
    as (s' & Hs' & Hclosed & Hcalls).
  destruct (run_callbacks_frame mine w) as (_ & Hsent & _).
  split; [by exists s'|].
  split; [exact (run_callbacks_deletes mine _ _ w Hin)|].
  split; [exact Hsent|].
  intros l n.
  destruct (closed_forever l (with_once_destroyed rest (run_callbacks mine w))
              h s' Hs' Hclosed) as (s'' & Hs'' & Hclosed'').
  simpl. by eapply notify_closed.
Qed.

Lemma destroyed_abandons_silently_witness :
  let w' := exec (Destroyed 7) subscribed_world in
  (exists s', rx w' !! 0 = Some s' /\ closed s' = true /\ 0 < unsubscribe_calls s') /\
  absent 0 "s1" w' /\
  sent w' = sent subscribed_world /\
  (forall l n, exec (Emit 0 n) (run l w') = run l w').
Proof.
  apply (destroyed_abandons_silently 7 subscribed_world 0 (MkSubscription false 0 7 "s1" 0));
    try reflexivity.
  exists [Register ProxiedClass descriptor;
          Message "channelName" 7 (SubscribeRequest "observableHot" None "s1") "c1"].
  reflexivity.
Defined.

(** ** Requests of an unknown type *)

(** C9: a request whose type is none of Get, Apply, Subscribe, Unsubscribe makes
    [handleRequest] throw "Unhandled RequestType [..]" without touching the
    world, and the listener answers the sender with that error, serialised,
    on the correlation id. On a channel with an active registration that one
    answer is all the message causes. *)
Theorem unhandled_request_is_answered server sender type correlationId w :
  handleRequest server (OtherRequest type) sender w
  = (Throw (Error ("Unhandled RequestType [" ++ type ++ "]")), w) /\
  listener server sender (OtherRequest type) correlationId w
  = send sender correlationId
      (ErrorResponse (Errio_stringify (Error ("Unhandled RequestType [" ++ type ++ "]")))) w
  /\
  (forall channel,
     reachable w ->
     registrations w !! channel = Some (Some server) ->
     exec (Message channel sender (OtherRequest type) correlationId) w
     = send sender correlationId
         (ErrorResponse (Errio_stringify (Error ("Unhandled RequestType [" ++ type ++ "]"))))
         w).
Proof.
  split; [reflexivity|]. split; [reflexivity|].
  intros channel Hreach Hreg. simpl.
  destruct (inv_reg _ (reachable_invariant _ Hreach) channel server Hreg) as [-> _].
  reflexivity.
Qed.

Lemma unhandled_request_is_answered_witness :
  handleRequest 0 (OtherRequest "Construct") 7 registered_world
  = (Throw (Error "Unhandled RequestType [Construct]"), registered_world) /\
  listener 0 7 (OtherRequest "Construct") "c1" registered_world
  = send 7 "c1" (ErrorResponse (Errio_stringify (Error "Unhandled RequestType [Construct]")))
      registered_world /\
  exec (Message "channelName" 7 (OtherRequest "Construct") "c1") registered_world
  = send 7 "c1" (ErrorResponse (Errio_stringify (Error "Unhandled RequestType [Construct]")))
      registered_world.
Proof.
  destruct (unhandled_request_is_answered 0 7 "Construct" "c1" registered_world)
    as (H1 & H2 & H3).
  split; [exact H1|]. split; [exact H2|].
  apply (H3 "channelName").
  - exists [Register ProxiedClass descriptor]. reflexivity.
  - reflexivity.
Defined.

(** * The rest of the module *)

(** ** [Get] and [Apply], from the message to the reply *)

Lemma exec_message_registered channel server sender request correlationId w :
  reachable w ->
  registrations w !! channel = Some (Some server) ->
  exec (Message channel sender request correlationId) w
  = listener server sender request correlationId w.
Proof.
  intros Hreach Hreg. simpl.
  by destruct (inv_reg _ (reachable_invariant _ Hreach) channel server Hreg) as [-> _].
Qed.

Lemma handleGet_Some this self propKey w :
  handlers w !! this = Some self ->
  handleGet this propKey w = (get_prop (target self) propKey, w).
Proof.
  intros Hthis. unfold handleGet. msimpl. rewrite Hthis. simpl.
  by destruct (get_prop (target self) propKey).
Qed.

(** X1: a [Get] request on a registered channel reads [target[propKey]] (an
    accessor runs with the target as receiver) and leaves the world as it
    is but for the reply to the requesting sender on the correlation id: a
    value or the value of a resolved promise as [Result], a thrown error or
    the reason of a rejected promise as [Error], nothing for a promise that
    is pending. *)
Theorem get_is_answered channel server self sender propKey correlationId w :
  reachable w ->
  registrations w !! channel = Some (Some server) ->
  handlers w !! server = Some self ->
  exec (Message channel sender (GetRequest propKey) correlationId) w
  = match get_prop (target self) propKey with
    | Throw e | Return (VPromise (Rejected e)) =>
        send sender correlationId (ErrorResponse (Errio_stringify e)) w
    | Return (VPromise (Resolved v)) => send sender correlationId (Result (VData v)) w
    | Return (VPromise Pending) => w
    | Return v => send sender correlationId (Result v) w
    end.
Proof.
  intros Hreach Hreg Hself. rewrite (exec_message_registered _ _ _ _ _ _ Hreach Hreg).
  unfold listener. simpl. rewrite (handleGet_Some _ _ _ _ Hself).
  destruct (get_prop (target self) propKey) as [[| [| |] | |]|]; reflexivity.
Qed.

Lemma get_is_answered_witness :
  exec (Message "channelName" 7 (GetRequest "stringGetter") "c1") registered_world
  = send 7 "c1" (Result (VData (DStr "a string"))) registered_world /\
  exec (Message "channelName" 7 (GetRequest "stringMemberAsync") "c1") registered_world
  = send 7 "c1" (Result (VData (DStr "a string promise"))) registered_world /\
  exec (Message "channelName" 7 (GetRequest "notThere") "c1") registered_world
  = send 7 "c1" (Result undefined) registered_world.
Proof.
  assert (Hreach : reachable registered_world)
    by (exists [Register ProxiedClass descriptor]; reflexivity).
  split; [|split].
  - exact (get_is_answered "channelName" 0 (MkHandler ProxiedClass ∅) 7 "stringGetter" "c1"
             registered_world Hreach eq_refl eq_refl).
  - exact (get_is_answered "channelName" 0 (MkHandler ProxiedClass ∅) 7 "stringMemberAsync"
             "c1" registered_world Hreach eq_refl eq_refl).
  - exact (get_is_answered "channelName" 0 (MkHandler ProxiedClass ∅) 7 "notThere" "c1"
             registered_world Hreach eq_refl eq_refl).
Defined.



(** The promise of [respondAfter(200)] is pending when the request has been
    handled: nothing is sent then, and the reply goes out when the promise
    resolves, to the sender of the request even if that sender has been
    destroyed in between. *)
Example late_reply_after_destroyed :
  let w := exec (Message "channelName" 7 (ApplyRequest "respondAfter" [DNum 200]) "c0")
             registered_world in
  w = registered_world /\
  sent (run [Destroyed 7; Settle 7 "c0" (Resolved DUndefined)] w)
  = [(7, "c0", Result undefined)].
Proof. split; vm_compute; reflexivity. Qed.

(** ** Requests that fail *)

Lemma handleSubscribe_duplicate this self propKey subscriptionId subscription sender w :
  handlers w !! this = Some self ->
  subscriptions self !! subscriptionId = Some subscription ->
  handleSubscribe this propKey subscriptionId sender w
  = (Throw (Error ("A subscription with Id [" ++ subscriptionId ++ "] already exists")), w).
Proof. intros Hthis Hsub. apply handleSubscribe_taken with self; [done|]. left. eauto. Qed.




(** X4: a [Subscribe] request whose id is already in the table of the
    channel's handler is refused, whatever the property and the sender:
    the error of line 89 is sent back on the correlation id and nothing else
    changes; the subscription that holds the id is not touched and no second
    one is made. *)
Theorem duplicate_subscription_refused channel this self propKey args subscriptionId
    subscription sender correlationId w :
  reachable w ->
  registrations w !! channel = Some (Some this) ->
  handlers w !! this = Some self ->
  subscriptions self !! subscriptionId = Some subscription ->
  exec (Message channel sender (SubscribeRequest propKey args subscriptionId) correlationId) w
  = send sender correlationId
      (ErrorResponse
         (Errio_stringify
            (Error ("A subscription with Id [" ++ subscriptionId ++ "] already exists")))) w.
Proof.
  intros Hreach Hreg Hself Hentry.
  rewrite (exec_message_registered _ _ _ _ _ _ Hreach Hreg). unfold listener. simpl.
  by rewrite (handleSubscribe_duplicate _ _ _ _ _ _ _ Hself Hentry).
Qed.

Lemma duplicate_subscription_refused_witness :
  exec (Message "channelName" 8 (SubscribeRequest "observableProp" None "s1") "c2")
    subscribed_world
  = send 8 "c2"
      (ErrorResponse (Errio_stringify (Error "A subscription with Id [s1] already exists")))
      subscribed_world.
Proof.
  apply (duplicate_subscription_refused "channelName" 0
           (MkHandler ProxiedClass {[ "s1" := 0 ]}) "observableProp" None "s1" 0 8 "c2"
           subscribed_world); try reflexivity.
  exists [Register ProxiedClass descriptor;
          Message "channelName" 7 (SubscribeRequest "observableHot" None "s1") "c1"].
  vm_compute. reflexivity.
Defined.

(** X21: a [Subscribe] request for a member that is not stream shaped (plain
    data, a promise, a function, or no member at all), with an id that passes
    the test of line 88 (the table neither holds nor inherits a property of
    that name), is refused: the error of line 95 is sent back on the
    correlation id and nothing else changes; no subscription is made and no
    entry stored. *)
Theorem subscribe_to_non_stream_refused channel this self propKey args subscriptionId v
    sender correlationId w :
  reachable w ->
  registrations w !! channel = Some (Some this) ->
  handlers w !! this = Some self ->
  subscriptions self !! subscriptionId = None ->
  inherited subscriptionId = false ->
  get_prop (target self) propKey = Return v ->
  isObservable v = false ->
  exec (Message channel sender (SubscribeRequest propKey args subscriptionId) correlationId) w
  = send sender correlationId
      (ErrorResponse
         (Errio_stringify (Error ("Property [" ++ propKey ++ "] is not an observable")))) w.
Proof.
  intros Hreach Hreg Hself Hfree Hinh Hget Hobs.
  rewrite (exec_message_registered _ _ _ _ _ _ Hreach Hreg). unfold listener.
  by rewrite (handleSubscribe_not_observable _ _ _ args _ _ _ _ Hself Hfree Hinh Hget Hobs).
Qed.

Lemma subscribe_to_non_stream_refused_witness :
  exec (Message "channelName" 7 (SubscribeRequest "notThere" None "s1") "c1") registered_world
  = send 7 "c1"
      (ErrorResponse (Errio_stringify (Error "Property [notThere] is not an observable")))
      registered_world.
Proof.
  apply (subscribe_to_non_stream_refused "channelName" 0 (MkHandler ProxiedClass ∅) "notThere"
           None "s1" undefined 7 "c1" registered_world); try reflexivity.
  exists [Register ProxiedClass descriptor]. vm_compute. reflexivity.
Defined.

(** ** A successful [Subscribe] *)

Lemma observe_message_of sender subscriptionId n w :
  observe sender subscriptionId n w = send sender subscriptionId (message_of n) w.
Proof. by destruct n. Qed.

Lemma notify_all_closed h s evs w :
  rx w !! h = Some s -> closed s = true ->
  foldl (fun w n => notify h n w) w evs = w.
Proof.
  intros Hs Hclosed. induction evs as [|n evs IH]; simpl; [done|].
  by rewrite (notify_closed h s n w Hs Hclosed).
Qed.

Lemma notify_open h s n w :
  rx w !! h = Some s -> closed s = false ->
  notify h n w
  = if terminal n
    then with_rx (alter stop h (rx w))
           (send (observer_sender s) (observer_id s) (message_of n) w)
    else send (observer_sender s) (observer_id s) (message_of n) w.
Proof.
  intros Hs Hopen. unfold notify. rewrite Hs, Hopen, observe_message_of.
  by destruct (terminal n).
Qed.

(** What a new subscription forwards of the notifications it is given. *)
Lemma notify_all_sent h s evs w :
  rx w !! h = Some s -> closed s = false ->
  sent (foldl (fun w n => notify h n w) w evs)
  = (sent w ++ ((fun n => (observer_sender s, observer_id s, message_of n))
                  <$> delivered evs))%list.
Proof.
  revert w. induction evs as [|n evs IH]; intros w Hs Hopen; simpl.
  - by rewrite app_nil_r.
  - rewrite (notify_open h s n w Hs Hopen).
    destruct (terminal n) eqn:Hterm.
    + rewrite (notify_all_closed h (stop s)); [done | | done].
      simpl. by rewrite list_lookup_alter_eq, Hs.
    + rewrite IH by done. simpl. by rewrite <- app_assoc.
Qed.

Lemma notify_all_rx h s evs w :
  rx w !! h = Some s -> closed s = false ->
  rx (foldl (fun w n => notify h n w) w evs)
  = if existsb terminal evs then alter stop h (rx w) else rx w.
Proof.
  revert w. induction evs as [|n evs IH]; intros w Hs Hopen; simpl; [done|].
  rewrite (notify_open h s n w Hs Hopen).
  destruct (terminal n) eqn:Hterm; simpl.
  - rewrite (notify_all_closed h (stop s)); [done | | done].
    simpl. by rewrite list_lookup_alter_eq, Hs.
  - by rewrite IH.
Qed.

(** X5: a [Subscribe] request on a registered channel, with an id that
    passes the test of line 88 (the table neither holds nor inherits a
    property of that name), for a stream shaped member: one subscription is
    made; what the
    stream emits at once is forwarded to the requesting sender under the
    subscription id, in order, each value as [Next], up to and including a
    first error or completion and nothing after it; then [Result undefined]
    is sent on the correlation id. The subscription is stored under the id
    (closed if the stream has ended, open otherwise) and one
    [once('destroyed')] callback is added for the sender. *)
Theorem subscribe_forwards channel this self propKey args subscriptionId sender o
    correlationId w :
  reachable w ->
  registrations w !! channel = Some (Some this) ->
  handlers w !! this = Some self ->
  subscriptions self !! subscriptionId = None ->
  inherited subscriptionId = false ->
  get_prop (target self) propKey = Return (VObservable o) ->
  let w' := exec (Message channel sender (SubscribeRequest propKey args subscriptionId)
                    correlationId) w in
  sent w'
  = (sent w
     ++ ((fun n => (sender, subscriptionId, message_of n)) <$> delivered (on_subscribe o))
     ++ [(sender, correlationId, Result undefined)])%list /\
  rx w'
  = (rx w ++ [MkSubscription (existsb terminal (on_subscribe o)) 0 sender subscriptionId
                this])%list /\
  handlers w' !! this
  = Some (MkHandler (target self) (<[subscriptionId := length (rx w)]> (subscriptions self)))
  /\
  once_destroyed w' = (once_destroyed w ++ [(sender, (this, subscriptionId))])%list.
Proof.
  intros Hreach Hreg Hself Hsub Hinh Hget.
  rewrite (exec_message_registered _ _ _ _ _ _ Hreach Hreg).
  unfold listener. simpl.
  rewrite (handleSubscribe_observable _ _ _ _ _ _ _ Hself Hsub Hinh Hget). simpl.
  set (new := MkSubscription false 0 sender subscriptionId this).
  assert (Hnew : rx (with_rx (rx w ++ [new]) w) !! length (rx w) = Some new).
  { simpl. by rewrite lookup_app_r, Nat.sub_diag. }
  pose proof (rx_step_opened (length (rx w)) new (on_subscribe o) w) as Hstep.
  split; [|split; [|split]].
  - rewrite (notify_all_sent _ new _ _ Hnew eq_refl). simpl. by rewrite <- app_assoc.
  - rewrite (notify_all_rx _ new _ _ Hnew eq_refl). simpl.
    destruct (existsb terminal (on_subscribe o)); [|done].
    apply list_eq. intros i. destruct (decide (i = length (rx w))) as [-> | Hne].
    + rewrite list_lookup_alter_eq, !lookup_app_r, Nat.sub_diag by done. done.
    + rewrite list_lookup_alter_ne by done.
      destruct (decide (i < length (rx w))).
      * by rewrite !lookup_app_l.
      * rewrite !lookup_app_r by lia.
        destruct (i - length (rx w)) as [|k] eqn:Hk; [lia | done].
  - rewrite list_lookup_alter_eq, (step_handlers _ _ Hstep). simpl. by rewrite Hself.
  - by rewrite (step_once _ _ Hstep).
Qed.

Lemma subscribe_forwards_witness :
  let w' := exec (Message "channelName" 7 (SubscribeRequest "observableError" None "s1") "c1")
              registered_world in
  sent w'
  = (sent registered_world
     ++ ((fun n => (7, "s1", message_of n))
           <$> delivered (on_subscribe (throwError (Error "error on stream"))))
     ++ [(7, "c1", Result undefined)])%list /\
  rx w'
  = (rx registered_world
     ++ [MkSubscription
           (existsb terminal (on_subscribe (throwError (Error "error on stream"))))
           0 7 "s1" 0])%list /\
  handlers w' !! 0
  = Some (MkHandler (target (MkHandler ProxiedClass ∅))
            (<["s1" := length (rx registered_world)]> (subscriptions (MkHandler ProxiedClass ∅))))
  /\
  once_destroyed w' = (once_destroyed registered_world ++ [(7, (0, "s1"))])%list.
Proof.
  apply (subscribe_forwards "channelName" 0 (MkHandler ProxiedClass ∅) "observableError" None
           "s1" 7 (throwError (Error "error on stream")) "c1" registered_world);
    try reflexivity.
  exists [Register ProxiedClass descriptor]. reflexivity.
Defined.

(** ** Subscription ids and ended streams *)

(** X6: the id of a subscription whose stream has ended by itself stays
    taken: a [Subscribe] request with that id to the same handler is refused
    as a duplicate. An [Unsubscribe] request for it still succeeds, sends
    nothing and removes the entry. *)
Theorem ended_stream_keeps_id w h s n :
  reachable w ->
  rx w !! h = Some s -> closed s = false -> terminal n = true ->
  let w1 := exec (Emit h n) w in
  (forall propKey args sender,
     handleRequest (owner s) (SubscribeRequest propKey args (observer_id s)) sender w1
     = (Throw (Error ("A subscription with Id [" ++ observer_id s ++ "] already exists")),
        w1)) /\
  exists w2,
    (forall sender,
       handleRequest (owner s) (UnsubscribeRequest (observer_id s)) sender w1
       = (Return undefined, w2)) /\
    absent (owner s) (observer_id s) w2 /\
    sent w2 = sent w1.
Proof.
  intros Hreach Hs Hopen Hterm. simpl.
  destruct (inv_tab _ (reachable_invariant _ Hreach) h s Hs Hopen) as (self & Hself & Hentry).
  rewrite <- (step_handlers _ _ (rx_step_notify h n w)) in Hself.
  split.
  - intros propKey args sender. simpl. by eapply handleSubscribe_duplicate.
  - eexists. split; [|split].
    + intros sender. simpl. by eapply handleUnsubscribe_present.
    + intros self'. rewrite (handlers_set_subscriptions_eq _ _ self) by done.
      intros [= <-]. simpl. apply lookup_delete_eq.
    + reflexivity.
Qed.

Lemma ended_stream_keeps_id_witness :
  let w1 := exec (Emit 0 OnComplete) subscribed_world in
  (forall propKey args sender,
     handleRequest 0 (SubscribeRequest propKey args "s1") sender w1
     = (Throw (Error "A subscription with Id [s1] already exists"), w1)) /\
  exists w2,
    (forall sender, handleRequest 0 (UnsubscribeRequest "s1") sender w1
                    = (Return undefined, w2)) /\
    absent 0 "s1" w2 /\
    sent w2 = sent w1.
Proof.
  apply (ended_stream_keeps_id subscribed_world 0 (MkSubscription false 0 7 "s1" 0) OnComplete);
    try reflexivity.
  exists [Register ProxiedClass descriptor;
          Message "channelName" 7 (SubscribeRequest "observableHot" None "s1") "c1"].
  vm_compute. reflexivity.
Defined.

(** X7: after a successful [Unsubscribe] request the stream is cut off for
    good: whatever happens afterwards, an emission of the stream behind the
    subscription changes nothing and sends nothing. *)
Theorem unsubscribed_stays_silent this self subscriptionId sender h s w :
  handlers w !! this = Some self ->
  subscriptions self !! subscriptionId = Some h ->
  rx w !! h = Some s ->
  let w' := (handleRequest this (UnsubscribeRequest subscriptionId) sender w).2 in
  forall l n, exec (Emit h n) (run l w') = run l w'.
Proof.
  intros Hthis Hsub Hs. simpl. rewrite (handleUnsubscribe_present _ _ _ _ _ Hthis Hsub).
  intros l n. simpl.
  destruct (closed_forever l
              (set_subscriptions this (delete subscriptionId) (unsubscribe h w))
              h (cancel s)) as (s' & Hs' & Hclosed); [|done|].
  - simpl. by rewrite list_lookup_alter_eq, Hs.
  - by eapply notify_closed.
Qed.

Lemma unsubscribed_stays_silent_witness :
  let w' := (handleRequest 0 (UnsubscribeRequest "s1") 7 subscribed_world).2 in
  rx subscribed_world !! 0 = Some (MkSubscription false 0 7 "s1" 0) /\
  forall l n, exec (Emit 0 n) (run l w') = run l w'.
Proof.
  split; [reflexivity|].
  apply (unsubscribed_stays_silent 0 (MkHandler ProxiedClass {[ "s1" := 0 ]}) "s1" 7 0
           (MkSubscription false 0 7 "s1" 0) subscribed_world); reflexivity.
Defined.

(** ** Channels without a registration *)

Lemma exec_message_unregistered channel sender request correlationId w :
  invariant w ->
  truthy (registrations w !! channel) = false ->
  exec (Message channel sender request correlationId) w = w.
Proof. intros Hinv Hreg. simpl. by rewrite (inv_lis _ Hinv channel Hreg). Qed.

(** X8: a message on a channel that has no active registration (never
    registered, or unregistered) is dropped: no handler runs, nothing is
    sent back, nothing changes. *)
Theorem unregistered_channel_ignores channel sender request correlationId w :
  reachable w ->
  registrations w !! channel = None \/ registrations w !! channel = Some None ->
  exec (Message channel sender request correlationId) w = w.
Proof.
  intros Hreach Hreg.
  apply exec_message_unregistered; [by apply reachable_invariant | by apply truthy_false].
Qed.

Lemma unregistered_channel_ignores_witness :
  exec (Message "otherChannel" 7 (GetRequest "stringMemberSync") "c1") registered_world
  = registered_world.
Proof.
  apply (unregistered_channel_ignores "otherChannel" 7 (GetRequest "stringMemberSync") "c1"
           registered_world).
  - exists [Register ProxiedClass descriptor]. reflexivity.
  - left. reflexivity.
Defined.

Lemma reachable_exec a w : reachable w -> reachable (exec a w).
Proof. intros H. apply (reachable_run [a] w H). Qed.

(** X9: unregistering a channel silences its handler for good: afterwards a
    message on the channel is dropped, and whatever happens later (a new
    registration on the channel included) no emission of a stream the
    handler had subscribed to sends anything. *)
Theorem unregistered_handler_stays_silent channel server w :
  reachable w ->
  registrations w !! channel = Some (Some server) ->
  let w' := exec (Unregister channel) w in
  (forall sender request correlationId,
     exec (Message channel sender request correlationId) w' = w') /\
  (forall h s l n,
     rx w !! h = Some s -> owner s = server ->
     exec (Emit h n) (run l w') = run l w').
Proof.
  intros Hreach Hreg. pose proof (reachable_invariant _ Hreach) as Hinv.
  destruct (inv_reg _ Hinv channel server Hreg) as [_ [self Hself]].
  split.
  - intros sender request correlationId.
    apply exec_message_unregistered.
    + apply reachable_invariant, reachable_exec, Hreach.
    + simpl. rewrite (unregisterProxy_registered _ _ _ _ Hreg Hself). simpl.
      by rewrite lookup_insert_eq.
  - intros h s l n Hs Howner.
    assert (Hclosed : exists s', rx (exec (Unregister channel) w) !! h = Some s'
                                 /\ closed s' = true).
    { simpl. rewrite (unregisterProxy_registered _ _ _ _ Hreg Hself). simpl.
      apply (unsubscribe_all_closed _ w h s Hs).
      destruct (closed s) eqn:Hopen; [by right|]. left.
      destruct (inv_tab _ Hinv h s Hs Hopen) as (self' & Hself' & Hentry).
      rewrite Howner, Hself in Hself'. injection Hself' as <-.
      apply list_elem_of_fmap. exists (observer_id s, h). split; [done|].
      by apply elem_of_map_to_list. }
    destruct Hclosed as (s' & Hs' & Hclosed).
    destruct (closed_forever l _ h s' Hs' Hclosed) as (s'' & Hs'' & Hclosed'').
    simpl. by eapply notify_closed.
Qed.

Lemma unregistered_handler_stays_silent_witness :
  let w' := exec (Unregister "channelName") subscribed_world in
  (forall sender request correlationId,
     exec (Message "channelName" sender request correlationId) w' = w') /\
  (forall h s l n,
     rx subscribed_world !! h = Some s -> owner s = 0 ->
     exec (Emit h n) (run l w') = run l w').
Proof.
  apply (unregistered_handler_stays_silent "channelName" 0 subscribed_world).
  - exists [Register ProxiedClass descriptor;
            Message "channelName" 7 (SubscribeRequest "observableHot" None "s1") "c1"].
    vm_compute. reflexivity.
  - reflexivity.
Defined.

(** ** No subscription is lost *)

(** X10: in every world the module can reach, a subscription that is still
    open is recorded in the table of the handler that made it, under its id,
    and the [once('destroyed')] callback of its sender is pending: each open
    subscription can be cancelled by [Unsubscribe], by unregistration and by
    the sender's destruction. *)
Theorem open_subscription_is_tracked w h s :
  reachable w ->
  rx w !! h = Some s -> closed s = false ->
  (exists self,
     handlers w !! owner s = Some self /\ subscriptions self !! observer_id s = Some h) /\
  (observer_sender s, (owner s, observer_id s)) ∈ once_destroyed w.
Proof.
  intros Hreach Hs Hopen. pose proof (reachable_invariant _ Hreach) as Hinv.
  split; [by apply (inv_tab _ Hinv) | by apply (inv_onc _ Hinv h)].
Qed.

Lemma open_subscription_is_tracked_witness :
  (exists self, handlers subscribed_world !! 0 = Some self /\
                subscriptions self !! "s1" = Some 0) /\
  (7, (0, "s1")) ∈ once_destroyed subscribed_world.
Proof.
  apply (open_subscription_is_tracked subscribed_world 0 (MkSubscription false 0 7 "s1" 0));
    try reflexivity.
  exists [Register ProxiedClass descriptor;
          Message "channelName" 7 (SubscribeRequest "observableHot" None "s1") "c1"].
  vm_compute. reflexivity.
Defined.

(** ** Who is written to *)




(** ** Table entries and calls of [unsubscribe()] *)

Lemma opened_rx this subscriptionId sender o w :
  rx (opened this subscriptionId sender o w)
  = (rx w ++ [MkSubscription (existsb terminal (on_subscribe o)) 0 sender subscriptionId
                this])%list.
Proof.
  unfold opened. simpl.
  set (new := MkSubscription false 0 sender subscriptionId this).
  rewrite (notify_all_rx _ new); [| simpl; by rewrite lookup_app_r, Nat.sub_diag | done].
  simpl. destruct (existsb terminal (on_subscribe o)); [|done].
  apply list_eq. intros i. destruct (decide (i = length (rx w))) as [-> | Hne].
  - rewrite list_lookup_alter_eq, !lookup_app_r, Nat.sub_diag by done. done.
  - rewrite list_lookup_alter_ne by done.
    destruct (decide (i < length (rx w))).
    + by rewrite !lookup_app_l.
    + rewrite !lookup_app_r by lia.
      destruct (i - length (rx w)) as [|k] eqn:Hk; [lia | done].
Qed.

Lemma opened_handlers this subscriptionId sender o w :
  handlers (opened this subscriptionId sender o w)
  = alter (fun self => MkHandler (target self)
                         (<[subscriptionId := length (rx w)]> (subscriptions self)))
      this (handlers w).
Proof.
  unfold opened. simpl.
  by rewrite (step_handlers _ _ (rx_step_opened (length (rx w)) _ (on_subscribe o) w)).
Qed.

Lemma sub_le_owner s s' : sub_le s s' -> owner s' = owner s.
Proof. intros [-> | (_ & _ & _ & ? & _)]; done. Qed.

Lemma sub_le_id s s' : sub_le s s' -> observer_id s' = observer_id s.
Proof. intros [-> | (_ & _ & ? & _)]; done. Qed.

(** Entries stay right when tables only shrink and subscriptions only close. *)
Lemma inv_entries_mono w w' :
  tables_shrink w w' -> rx_le (rx w) (rx w') -> inv_entries w -> inv_entries w'.
Proof.
  intros Hshrink Hle Hent this self' subscriptionId h Hself' Hentry.
  destruct (Hshrink _ _ _ _ Hself' Hentry) as (self & Hself & Hentry0).
  destruct (Hent _ _ _ _ Hself Hentry0) as (s & Hs & Howner & Hid).
  destruct (Hle h s Hs) as (s' & Hs' & Hsub).
  exists s'. split; [done|].
  by rewrite (sub_le_owner _ _ Hsub), (sub_le_id _ _ Hsub).
Qed.

Lemma tables_shrink_refl w w' : handlers w' = handlers w -> tables_shrink w w'.
Proof. intros Heq this self' subscriptionId h. rewrite Heq. eauto. Qed.

Lemma tables_shrink_set_subscriptions this f w :
  (forall m subscriptionId h, f m !! subscriptionId = Some h -> m !! subscriptionId = Some h) ->
  tables_shrink w (set_subscriptions this f w).
Proof.
  intros Hf this' self' subscriptionId h. simpl.
  destruct (decide (this = this')) as [<- | Hne].
  - rewrite list_lookup_alter_eq. destruct (handlers w !! this) as [self|]; [|done].
    simpl. intros [= <-]. simpl. intros H. exists self. split; [done | by apply Hf].
  - rewrite list_lookup_alter_ne by done. eauto.
Qed.

Lemma tables_shrink_trans w1 w2 w3 :
  tables_shrink w1 w2 -> tables_shrink w2 w3 -> tables_shrink w1 w3.
Proof.
  intros H12 H23 this self3 subscriptionId h Hself3 Hentry.
  destruct (H23 _ _ _ _ Hself3 Hentry) as (self2 & Hself2 & Hentry2). eauto.
Qed.

(** What is in a table has had no [unsubscribe()] call. *)
Lemma entry_not_cancelled this self subscriptionId h s w :
  inv_calls w ->
  handlers w !! this = Some self -> subscriptions self !! subscriptionId = Some h ->
  rx w !! h = Some s -> unsubscribe_calls s = 0.
Proof.
  intros Hcal Hself Hentry Hs. destruct (Hcal h s Hs) as [Hle Hone].
  destruct (decide (unsubscribe_calls s = 1)) as [H1 | Hne]; [|lia].
  exfalso. by apply (Hone H1 this self subscriptionId).
Qed.

Lemma inv_doUnsubscribe_present this self subscriptionId h w :
  inv_entries w -> inv_calls w ->
  handlers w !! this = Some self ->
  subscriptions self !! subscriptionId = Some h ->
  let w' := set_subscriptions this (delete subscriptionId) (unsubscribe h w) in
  inv_entries w' /\ inv_calls w'.
Proof.
  intros Hent Hcal Hself Hentry w'.
  assert (Hshrink : tables_shrink w w').
  { apply (tables_shrink_set_subscriptions this (delete subscriptionId) (unsubscribe h w)).
    intros m i x Hx. apply lookup_delete_Some in Hx. tauto. }
  destruct (Hent _ _ _ _ Hself Hentry) as (s & Hs & Howner & Hid).
  split.
  - apply (inv_entries_mono w w' Hshrink); [|done].
    simpl. apply rx_le_alter, sub_le_cancel.
  - intros h1 s1 Hs1. simpl in Hs1.
    destruct (decide (h = h1)) as [<- | Hne].
    + rewrite list_lookup_alter_eq, Hs in Hs1. injection Hs1 as <-. simpl.
      rewrite (entry_not_cancelled _ _ _ _ _ _ Hcal Hself Hentry Hs). split; [lia|].
      intros _ this1 self1 id1 Hself1 Hentry1.
      destruct (Hshrink _ _ _ _ Hself1 Hentry1) as (self0 & Hself0 & Hentry0).
      destruct (Hent _ _ _ _ Hself0 Hentry0) as (s0 & Hs0 & Howner0 & Hid0).
      rewrite Hs in Hs0. injection Hs0 as <-.
      assert (this1 = this) as -> by congruence.
      assert (id1 = subscriptionId) as -> by congruence.
      assert (Hhere : handlers w' !! this
                      = Some (MkHandler (target self)
                                (delete subscriptionId (subscriptions self))))
        by (by apply handlers_set_subscriptions_eq).
      change (handlers w' !! this = Some self1) in Hself1.
      rewrite Hhere in Hself1. injection Hself1 as <-. simpl in Hentry1.
      by rewrite lookup_delete_eq in Hentry1.
    + rewrite list_lookup_alter_ne in Hs1 by done.
      destruct (Hcal h1 s1 Hs1) as [Hle Hone]. split; [done|].
      intros H1 this1 self1 id1 Hself1 Hentry1.
      destruct (Hshrink _ _ _ _ Hself1 Hentry1) as (self0 & Hself0 & Hentry0).
      by apply (Hone H1 this1 self0 id1).
Qed.

Lemma inv_subs_ext w w' :
  handlers w' = handlers w -> rx w' = rx w -> inv_subs w -> inv_subs w'.
Proof.
  intros Hh Hr [Hent Hcal]. split.
  - intros this self subscriptionId h. rewrite Hh, Hr. apply Hent.
  - intros h s. rewrite Hh, Hr. apply Hcal.
Qed.

Lemma inv_calls_mono w w' :
  rx w' = rx w -> tables_shrink w w' -> inv_calls w -> inv_calls w'.
Proof.
  intros Hr Hshrink Hcal h s Hs. rewrite Hr in Hs.
  destruct (Hcal h s Hs) as [Hle Hone]. split; [done|].
  intros H1 this self' subscriptionId Hself' Hentry.
  destruct (Hshrink _ _ _ _ Hself' Hentry) as (self & Hself & Hentry0).
  by apply (Hone H1 this self subscriptionId).
Qed.

Lemma inv_subs_stop h w w' :
  handlers w' = handlers w -> rx w' = alter stop h (rx w) -> inv_subs w -> inv_subs w'.
Proof.
  intros Hh Hr [Hent Hcal]. split.
  - apply (inv_entries_mono w w'); [by apply tables_shrink_refl | | done].
    rewrite Hr. apply rx_le_alter, sub_le_stop.
  - intros h1 s1 Hs1. rewrite Hr in Hs1. rewrite Hh.
    destruct (decide (h = h1)) as [<- | Hne].
    + rewrite list_lookup_alter_eq in Hs1.
      destruct (rx w !! h) as [s|] eqn:Hs; [|done]. injection Hs1 as <-. simpl.
      apply (Hcal h s Hs).
    + rewrite list_lookup_alter_ne in Hs1 by done. by apply Hcal.
Qed.

Lemma inv_subs_notify h n w : inv_subs w -> inv_subs (notify h n w).
Proof.
  intros Hinv. unfold notify. destruct (rx w !! h) as [s|]; [|done].
  destruct (closed s); [done|]. rewrite observe_message_of.
  destruct (terminal n).
  - by apply (inv_subs_stop h w).
  - by apply (inv_subs_ext w).
Qed.

Lemma inv_subs_doUnsubscribe this subscriptionId w :
  inv_subs w -> inv_subs (doUnsubscribe this subscriptionId w).2.
Proof.
  intros [Hent Hcal].
  destruct (doUnsubscribe_cases this subscriptionId w)
    as [-> | (self & h & Hself & Hentry & ->)]; [done|].
  destruct (inv_doUnsubscribe_present this self subscriptionId h w Hent Hcal Hself Hentry).
  by split.
Qed.

Lemma inv_subs_opened this self subscriptionId sender o w :
  handlers w !! this = Some self ->
  subscriptions self !! subscriptionId = None ->
  inv_subs w -> inv_subs (opened this subscriptionId sender o w).
Proof.
  intros Hself Hfree [Hent Hcal].
  set (new := MkSubscription (existsb terminal (on_subscribe o)) 0 sender subscriptionId this).
  assert (Hentries : forall this1 self1 id1 h1,
            handlers (opened this subscriptionId sender o w) !! this1 = Some self1 ->
            subscriptions self1 !! id1 = Some h1 ->
            (this1 = this /\ id1 = subscriptionId /\ h1 = length (rx w)) \/
            exists self0, handlers w !! this1 = Some self0 /\
                          subscriptions self0 !! id1 = Some h1).
  { intros this1 self1 id1 h1. rewrite opened_handlers.
    destruct (decide (this = this1)) as [<- | Hne].
    - rewrite list_lookup_alter_eq, Hself. simpl. intros [= <-]. simpl.
      destruct (decide (subscriptionId = id1)) as [<- | Hid].
      + rewrite lookup_insert_eq. intros [= <-]. by left.
      + rewrite lookup_insert_ne by done. intros H. right. eauto.
    - rewrite list_lookup_alter_ne by done. intros H1 H2. right. eauto. }
  split.
  - intros this1 self1 id1 h1 Hself1 Hentry1. rewrite opened_rx.
    destruct (Hentries _ _ _ _ Hself1 Hentry1) as [(-> & -> & ->) | (self0 & Hself0 & Hentry0)].
    + exists new. by rewrite lookup_app_r, Nat.sub_diag.
    + destruct (Hent _ _ _ _ Hself0 Hentry0) as (s & Hs & Howner & Hid).
      exists s. split; [by apply lookup_app_l_Some | done].
  - intros h1 s1. rewrite opened_rx. intros Hs1.
    apply lookup_app_Some in Hs1 as [Hs1 | [Hge Hs1]].
    + destruct (Hcal h1 s1 Hs1) as [Hle Hone]. split; [done|].
      intros H1 this1 self1 id1 Hself1 Hentry1.
      destruct (Hentries _ _ _ _ Hself1 Hentry1) as [(-> & -> & ->) | (self0 & Hself0 & Hentry0)].
      * apply lookup_lt_Some in Hs1. lia.
      * by apply (Hone H1 this1 self0 id1).
    + destruct (h1 - length (rx w)) as [|k]; simpl in Hs1; [|done].
      injection Hs1 as <-. simpl. split; [lia | discriminate].
Qed.

Lemma inv_subs_handleRequest this request sender w :
  inv_subs w -> inv_subs (handleRequest this request sender w).2.
Proof.
  intros Hinv.
  destruct request as [propKey|propKey args|propKey args subscriptionId|subscriptionId|type];
    simpl.
  - by rewrite handleGet_world.
  - by rewrite handleApply_world.
  - destruct (handleSubscribe_cases this propKey subscriptionId sender w)
      as [-> | (self & o & Hself & Hfree & _ & ->)]; [done|].
    by apply (inv_subs_opened this self).
  - rewrite handleUnsubscribe_world. by apply inv_subs_doUnsubscribe.
  - done.
Qed.

Lemma inv_subs_listener server sender request correlationId w :
  inv_subs w -> inv_subs (listener server sender request correlationId w).
Proof.
  intros Hinv. unfold listener.
  pose proof (inv_subs_handleRequest server request sender w Hinv) as H.
  destruct (handleRequest server request sender w) as [c w']. simpl in H.
  destruct (settle c); try done; by apply (inv_subs_ext w').
Qed.

Lemma inv_subs_foldl {A} (f : World -> A -> World) (l : list A) w :
  (forall w a, inv_subs w -> inv_subs (f w a)) -> inv_subs w -> inv_subs (foldl f w l).
Proof.
  intros Hf. revert w. induction l as [|a l IH]; intros w Hinv; simpl; [done|].
  apply IH, Hf, Hinv.
Qed.

Lemma inv_subs_registerProxy obj descriptor w :
  inv_subs w -> inv_subs (registerProxy obj descriptor w).2.
Proof.
  intros [Hent Hcal].
  destruct (truthy_at (channel descriptor) (registrations w !! channel descriptor))
    eqn:Htruthy.
  - pose proof (registerProxy_refused obj descriptor w Htruthy) as Hrefused.
    by rewrite Hrefused.
  - rewrite registerProxy_fresh by done. simpl.
    set (w' := MkWorld _ _ _ _ _ _).
    assert (Hshrink : tables_shrink w w').
    { intros this self' subscriptionId h. simpl. intros Hself' Hentry.
      apply lookup_app_Some in Hself' as [Hself' | [_ Hself']]; [eauto|].
      destruct (this - length (handlers w)) as [|k]; simpl in Hself'; [|done].
      injection Hself' as <-. done. }
    split.
    + apply (inv_entries_mono w w' Hshrink); [apply rx_le_refl | done].
    + by apply (inv_calls_mono w w').
Qed.

Lemma unsubscribe_all_rx l w h :
  NoDup l ->
  rx (foldl (fun w subscription => unsubscribe subscription w) w l) !! h
  = if decide (h ∈ l) then cancel <$> rx w !! h else rx w !! h.
Proof.
  intros Hnodup. revert w. induction Hnodup as [|a l Hnotin Hnodup IH]; intros w.
  - destruct (decide (h ∈ [])) as [Hin | _]; [by apply elem_of_nil in Hin | done].
  - cbn [foldl]. rewrite IH. cbn [rx unsubscribe with_rx].
    destruct (decide (h ∈ a :: l)) as [Hin | Hnin]; destruct (decide (h ∈ l)) as [Hl | Hl].
    + assert (a <> h) by (intros ->; done). by rewrite list_lookup_alter_ne.
    + apply elem_of_cons in Hin as [-> | Hin]; [|done]. by rewrite list_lookup_alter_eq.
    + exfalso. apply Hnin. by apply list_elem_of_further.
    + assert (a <> h) by (intros ->; apply Hnin, list_elem_of_here).
      by rewrite list_lookup_alter_ne.
Qed.

(** The subscriptions of a table are pairwise different. *)
Lemma table_values_NoDup this self w :
  inv_entries w -> handlers w !! this = Some self ->
  NoDup (map_to_list (subscriptions self)).*2.
Proof.
  intros Hent Hself. apply NoDup_fmap_2_strong; [|apply NoDup_map_to_list].
  intros [id1 h1] [id2 h2] H1 H2. simpl. intros <-.
  apply elem_of_map_to_list in H1, H2.
  destruct (Hent _ _ _ _ Hself H1) as (s1 & Hs1 & _ & Hid1).
  destruct (Hent _ _ _ _ Hself H2) as (s2 & Hs2 & _ & Hid2).
  rewrite Hs1 in Hs2. injection Hs2 as <-. congruence.
Qed.

Lemma inv_subs_unsubscribeAll this self w :
  inv_subs w -> handlers w !! this = Some self ->
  inv_subs (set_subscriptions this (fun _ => ∅)
              (foldl (fun w subscription => unsubscribe subscription w) w
                 (map_to_list (subscriptions self)).*2)).
Proof.
  intros [Hent Hcal] Hself.
  set (values := (map_to_list (subscriptions self)).*2).
  set (wf := foldl _ w values).
  set (w' := set_subscriptions _ _ wf).
  pose proof (rx_step_unsubscribe_all values w) as Hstep. fold wf in Hstep.
  assert (Hshrink : tables_shrink w w').
  { apply (tables_shrink_trans w wf w').
    - apply tables_shrink_refl, (step_handlers _ _ Hstep).
    - apply (tables_shrink_set_subscriptions this (fun _ => ∅) wf).
      intros m i x Hx. by rewrite lookup_empty in Hx. }
  assert (Hhere : handlers w' !! this = Some (MkHandler (target self) ∅)).
  { apply (handlers_set_subscriptions_eq this (fun _ => ∅) self wf).
    by rewrite (step_handlers _ _ Hstep). }
  split.
  - apply (inv_entries_mono w w' Hshrink); [|done]. apply (step_rx _ _ Hstep).
  - intros h1 s1' Hs1'. change (rx wf !! h1 = Some s1') in Hs1'. unfold wf in Hs1'.
    rewrite (unsubscribe_all_rx values w h1 (table_values_NoDup _ _ _ Hent Hself)) in Hs1'.
    destruct (decide (h1 ∈ values)) as [Hin | Hnin].
    + destruct (rx w !! h1) as [s1|] eqn:Hs1; [|done]. injection Hs1' as <-.
      apply list_elem_of_fmap in Hin as ([id1 h1'] & Heq & Hin). simpl in Heq. subst h1'.
      apply elem_of_map_to_list in Hin.
      simpl. rewrite (entry_not_cancelled _ _ _ _ _ _ Hcal Hself Hin Hs1). split; [lia|].
      intros _ this1 self1 id2 Hself1 Hentry1.
      destruct (Hshrink _ _ _ _ Hself1 Hentry1) as (self0 & Hself0 & Hentry0).
      destruct (Hent _ _ _ _ Hself0 Hentry0) as (s0 & Hs0 & Howner0 & _).
      destruct (Hent _ _ _ _ Hself Hin) as (s0' & Hs0' & Howner0' & _).
      assert (this1 = this) as -> by congruence.
      change (handlers w' !! this = Some self1) in Hself1.
      rewrite Hhere in Hself1. injection Hself1 as <-. simpl in Hentry1.
      by rewrite lookup_empty in Hentry1.
    + destruct (Hcal h1 s1' Hs1') as [Hle Hone]. split; [done|].
      intros H1 this1 self1 id2 Hself1 Hentry1.
      destruct (Hshrink _ _ _ _ Hself1 Hentry1) as (self0 & Hself0 & Hentry0).
      by apply (Hone H1 this1 self0 id2).
Qed.

Lemma inv_subs_unregisterProxy channel w :
  inv_subs w -> inv_subs (unregisterProxy channel w).2.
Proof.
  intros Hinv.
  destruct (registrations w !! channel) as [[server|]|] eqn:Hreg.
  - destruct (handlers w !! server) as [self|] eqn:Hself.
    + rewrite (unregisterProxy_registered _ _ _ _ Hreg Hself). simpl.
      eapply inv_subs_ext; [| |by apply (inv_subs_unsubscribeAll server self w)]; done.
    + unfold unregisterProxy, unsubscribeAll. msimpl. rewrite Hreg. simpl.
      rewrite Hself. simpl. by apply (inv_subs_ext w).
  - rewrite unregisterProxy_unregistered_world by (by rewrite Hreg). by apply (inv_subs_ext w).
  - rewrite unregisterProxy_unregistered_world by (by rewrite Hreg). by apply (inv_subs_ext w).
Qed.

Lemma inv_subs_destroyed sender w : inv_subs w -> inv_subs (destroyed sender w).
Proof.
  intros Hinv. rewrite destroyed_eq.
  eapply inv_subs_ext; [| |apply (inv_subs_foldl
    (fun w (cb : nat * (nat * string)) => (doUnsubscribe cb.2.1 cb.2.2 w).2)
    (filter (fun cb => cb.1 = sender) (once_destroyed w)) w); [|exact Hinv]]; try done.
  intros. by apply inv_subs_doUnsubscribe.
Qed.

Lemma inv_subs_exec a w : inv_subs w -> inv_subs (exec a w).
Proof.
  intros Hinv. destruct a; simpl.
  - by apply inv_subs_registerProxy.
  - by apply inv_subs_unregisterProxy.
  - apply inv_subs_foldl; [|done]. intros. by apply inv_subs_listener.
  - by apply inv_subs_destroyed.
  - by apply inv_subs_notify.
  - destruct outcome; simpl; [by apply (inv_subs_ext w).. | done].
Qed.

Lemma inv_subs_initial : inv_subs initial.
Proof. split; intros ?; simpl; intros; done. Qed.

Lemma reachable_inv_subs w : reachable w -> inv_subs w.
Proof.
  intros [l ->]. unfold run. apply inv_subs_foldl; [|apply inv_subs_initial].
  intros. by apply inv_subs_exec.
Qed.

(** X12: in every world the module can reach, an entry of a subscription
    table points to a subscription that exists, that the handler of the table
    made, and that was made under the id of the entry: no entry dangles, and
    no two entries, whether of one table or of two handlers, share a
    subscription. *)
Theorem table_entries_are_own w this self subscriptionId h :
  reachable w ->
  handlers w !! this = Some self ->
  subscriptions self !! subscriptionId = Some h ->
  (exists s, rx w !! h = Some s /\ owner s = this /\ observer_id s = subscriptionId) /\
  (forall this' self' subscriptionId',
     handlers w !! this' = Some self' ->
     subscriptions self' !! subscriptionId' = Some h ->
     this' = this /\ subscriptionId' = subscriptionId).
Proof.
  intros Hreach Hself Hentry. pose proof (inv_ent _ (reachable_inv_subs _ Hreach)) as Hent.
  destruct (Hent _ _ _ _ Hself Hentry) as (s & Hs & Howner & Hid).
  split; [by exists s|].
  intros this' self' subscriptionId' Hself' Hentry'.
  destruct (Hent _ _ _ _ Hself' Hentry') as (s' & Hs' & Howner' & Hid').
  rewrite Hs in Hs'. injection Hs' as <-. split; congruence.
Qed.

Lemma table_entries_are_own_witness :
  (exists s, rx subscribed_world !! 0 = Some s /\ owner s = 0 /\ observer_id s = "s1") /\
  (forall this' self' subscriptionId',
     handlers subscribed_world !! this' = Some self' ->
     subscriptions self' !! subscriptionId' = Some 0 ->
     this' = 0 /\ subscriptionId' = "s1").
Proof.
  apply (table_entries_are_own subscribed_world 0 (MkHandler ProxiedClass {[ "s1" := 0 ]})
           "s1" 0); try reflexivity.
  exists [Register ProxiedClass descriptor;
          Message "channelName" 7 (SubscribeRequest "observableHot" None "s1") "c1"].
  vm_compute. reflexivity.
Defined.

(** X13: in every world the module can reach, [unsubscribe()] has been
    called at most once on each subscription, whichever of [Unsubscribe],
    the sender's destruction and unregistration came first or came again;
    and a subscription it has been called on is in no table any more. *)
Theorem unsubscribe_called_at_most_once w h s :
  reachable w ->
  rx w !! h = Some s ->
  unsubscribe_calls s <= 1 /\
  (unsubscribe_calls s = 1 ->
   closed s = true /\
   forall this self subscriptionId,
     handlers w !! this = Some self -> subscriptions self !! subscriptionId <> Some h).
Proof.
  intros Hreach Hs.
  destruct (inv_cal _ (reachable_inv_subs _ Hreach) h s Hs) as [Hle Hone].
  split; [done|]. intros H1. split; [|by apply Hone].
  destruct (closed s) eqn:Hopen; [done|]. exfalso.
  destruct (inv_tab _ (reachable_invariant _ Hreach) h s Hs Hopen) as (self & Hself & Hentry).
  by apply (Hone H1 (owner s) self (observer_id s)).
Qed.

Lemma unsubscribe_called_at_most_once_witness :
  let w := run [Message "channelName" 7 (UnsubscribeRequest "s1") "c2"; Destroyed 7;
                Unregister "channelName"] subscribed_world in
  unsubscribe_calls (MkSubscription true 1 7 "s1" 0) <= 1 /\
  (unsubscribe_calls (MkSubscription true 1 7 "s1" 0) = 1 ->
   closed (MkSubscription true 1 7 "s1" 0) = true /\
   forall this self subscriptionId,
     handlers w !! this = Some self -> subscriptions self !! subscriptionId <> Some 0).
Proof.
  intros w.
  apply (unsubscribe_called_at_most_once w 0 (MkSubscription true 1 7 "s1" 0)).
  - exists [Register ProxiedClass descriptor;
            Message "channelName" 7 (SubscribeRequest "observableHot" None "s1") "c1";
            Message "channelName" 7 (UnsubscribeRequest "s1") "c2"; Destroyed 7;
            Unregister "channelName"].
    subst w. vm_compute. reflexivity.
  - subst w. vm_compute. reflexivity.
Defined.

(** ** Registrations, once made *)

Lemma handler_step_refl w : handler_step w w.
Proof. split; eauto. Qed.

Lemma handler_step_trans w1 w2 w3 :
  handler_step w1 w2 -> handler_step w2 w3 -> handler_step w1 w3.
Proof.
  intros [Hr12 Hl12 Ht12] [Hr23 Hl23 Ht23]. split; [congruence.. |].
  intros i self Hself. destruct (Ht12 i self Hself) as (self2 & Hself2 & Htarget2).
  destruct (Ht23 i self2 Hself2) as (self3 & Hself3 & Htarget3).
  exists self3. split; [done | congruence].
Qed.

Lemma handler_step_foldl {A} (f : World -> A -> World) (l : list A) w :
  (forall w a, handler_step w (f w a)) -> handler_step w (foldl f w l).
Proof.
  intros Hf. revert w. induction l as [|a l IH]; intros w; simpl.
  - apply handler_step_refl.
  - eapply handler_step_trans; [apply Hf | apply IH].
Qed.

Lemma handler_step_rx_step w w' : rx_step w w' -> handler_step w w'.
Proof. intros []. split; [done.. |]. intros i self. rewrite step_handlers0. eauto. Qed.

Lemma handler_step_set_subscriptions this f w :
  handler_step w (set_subscriptions this f w).
Proof.
  split; [done.. |]. intros i self Hself. simpl.
  destruct (decide (this = i)) as [<- | Hne].
  - rewrite list_lookup_alter_eq, Hself. eauto.
  - rewrite list_lookup_alter_ne by done. eauto.
Qed.

Lemma handler_step_doUnsubscribe this subscriptionId w :
  handler_step w (doUnsubscribe this subscriptionId w).2.
Proof.
  destruct (doUnsubscribe_cases this subscriptionId w)
    as [-> | (self & h & _ & _ & ->)]; [apply handler_step_refl|].
  eapply handler_step_trans; [|apply handler_step_set_subscriptions].
  apply handler_step_rx_step, rx_step_unsubscribe.
Qed.

Lemma handler_step_opened this subscriptionId sender o w :
  handler_step w (opened this subscriptionId sender o w).
Proof.
  pose proof (rx_step_opened (length (rx w))
                (MkSubscription false 0 sender subscriptionId this) (on_subscribe o) w)
    as [Hr Hh Hl _ _ _].
  split.
  - unfold opened. simpl. by rewrite Hr.
  - unfold opened. simpl. by rewrite Hl.
  - intros i self Hself. rewrite opened_handlers.
    destruct (decide (this = i)) as [<- | Hne].
    + rewrite list_lookup_alter_eq, Hself. eauto.
    + rewrite list_lookup_alter_ne by done. eauto.
Qed.

Lemma handler_step_handleRequest this request sender w :
  handler_step w (handleRequest this request sender w).2.
Proof.
  destruct request as [propKey|propKey args|propKey args subscriptionId|subscriptionId|type];
    simpl.
  - rewrite handleGet_world. apply handler_step_refl.
  - rewrite handleApply_world. apply handler_step_refl.
  - destruct (handleSubscribe_cases this propKey subscriptionId sender w)
      as [-> | (self & o & _ & _ & _ & ->)];
      [apply handler_step_refl | apply handler_step_opened].
  - rewrite handleUnsubscribe_world. apply handler_step_doUnsubscribe.
  - apply handler_step_refl.
Qed.

Lemma handler_step_listener server sender request correlationId w :
  handler_step w (listener server sender request correlationId w).
Proof.
  unfold listener.
  pose proof (handler_step_handleRequest server request sender w) as H.
  destruct (handleRequest server request sender w) as [c w']. simpl in H.
  destruct (settle c); try done;
    (eapply handler_step_trans; [exact H | apply handler_step_rx_step, rx_step_send]).
Qed.

Lemma handler_step_destroyed sender w : handler_step w (destroyed sender w).
Proof.
  rewrite destroyed_eq.
  pose proof (handler_step_foldl
                (fun w (cb : nat * (nat * string)) => (doUnsubscribe cb.2.1 cb.2.2 w).2)
                (filter (fun cb => cb.1 = sender) (once_destroyed w)) w
                (fun w cb => handler_step_doUnsubscribe cb.2.1 cb.2.2 w)) as [Hr Hl Ht].
  by split.
Qed.

(** Every action keeps the handlers bound to their targets. *)
Lemma targets_kept a w i self :
  handlers w !! i = Some self ->
  exists self', handlers (exec a w) !! i = Some self' /\ target self' = target self.
Proof.
  intros Hself.
  destruct a as [obj descriptor|channel|channel sender request cid|sender|h n|sender cid p];
    simpl.
  - destruct (truthy_at (channel descriptor) (registrations w !! channel descriptor))
      eqn:Htruthy.
    + pose proof (registerProxy_refused obj descriptor w Htruthy) as Hrefused.
      rewrite Hrefused. eauto.
    + rewrite registerProxy_fresh by done. simpl. exists self.
      split; [by apply lookup_app_l_Some | done].
  - destruct (registrations w !! channel) as [[server|]|] eqn:Hreg.
    + destruct (handlers w !! server) as [self0|] eqn:Hself0.
      * rewrite (unregisterProxy_registered _ _ _ _ Hreg Hself0). simpl.
        rewrite (step_handlers _ _ (rx_step_unsubscribe_all _ w)).
        destruct (decide (server = i)) as [<- | Hne].
        -- rewrite list_lookup_alter_eq, Hself. eauto.
        -- rewrite list_lookup_alter_ne by done. eauto.
      * unfold unregisterProxy, unsubscribeAll. msimpl. rewrite Hreg. simpl.
        rewrite Hself0. simpl. eauto.
    + rewrite unregisterProxy_unregistered_world by (by rewrite Hreg). eauto.
    + rewrite unregisterProxy_unregistered_world by (by rewrite Hreg). eauto.
  - apply (hs_targets _ _ (handler_step_foldl _ _ w
             (fun w server => handler_step_listener server sender request cid w))).
    done.
  - by apply (hs_targets _ _ (handler_step_destroyed sender w)).
  - by apply (hs_targets _ _ (handler_step_rx_step _ _ (rx_step_notify h n w))).
  - by apply (hs_targets _ _ (handler_step_rx_step _ _ (rx_step_late_reply sender cid p w))).
Qed.

(** A registration is taken back by nothing but the unregistration of its
    channel. *)
Lemma registration_kept a ch server w :
  ~ unregisters ch a ->
  registrations w !! ch = Some (Some server) ->
  registrations (exec a w) !! ch = Some (Some server).
Proof.
  intros Hnot Hreg.
  destruct a as [obj descriptor|channel'|channel' sender request cid|sender|h n|sender cid p];
    simpl.
  - destruct (truthy_at (channel descriptor) (registrations w !! channel descriptor))
      eqn:Htruthy.
    + pose proof (registerProxy_refused obj descriptor w Htruthy) as Hrefused.
      by rewrite Hrefused.
    + rewrite registerProxy_fresh by done. simpl.
      rewrite lookup_insert_ne; [done|]. intros Heq. rewrite Heq, Hreg in Htruthy. done.
  - simpl in Hnot.
    destruct (registrations w !! channel') as [[server'|]|] eqn:Hreg'.
    + destruct (handlers w !! server') as [self0|] eqn:Hself0.
      * rewrite (unregisterProxy_registered _ _ _ _ Hreg' Hself0). simpl.
        by rewrite lookup_insert_ne.
      * unfold unregisterProxy, unsubscribeAll. msimpl. rewrite Hreg'. simpl.
        by rewrite Hself0.
    + by rewrite unregisterProxy_unregistered_world by (by rewrite Hreg').
    + by rewrite unregisterProxy_unregistered_world by (by rewrite Hreg').
  - by rewrite (hs_registrations _ _ (handler_step_foldl _ _ w
             (fun w server => handler_step_listener server sender request cid w))).
  - by rewrite (hs_registrations _ _ (handler_step_destroyed sender w)).
  - by rewrite (hs_registrations _ _ (handler_step_rx_step _ _ (rx_step_notify h n w))).
  - by rewrite (step_registrations _ _ (rx_step_late_reply sender cid p w)).
Qed.

Lemma registration_kept_run l channel server obj w :
  Forall (fun a => ~ unregisters channel a) l ->
  registrations w !! channel = Some (Some server) ->
  (exists self, handlers w !! server = Some self /\ target self = obj) ->
  registrations (run l w) !! channel = Some (Some server) /\
  exists self, handlers (run l w) !! server = Some self /\ target self = obj.
Proof.
  intros Hl. revert w. induction Hl as [|a l Ha Hl IH]; intros w Hreg Hself; [done|].
  simpl. apply IH; [by apply registration_kept|].
  destruct Hself as (self & Hself & Htarget).
  destruct (targets_kept a w server self Hself) as (self' & Hself' & Htarget').
  exists self'. split; [done | congruence].
Qed.

(** X14: a registration, made on a channel without an active one and not
    named like a property that [registrations] inherits, stays in force,
    bound to the target it was made with, until the function that unregisters
    its channel is called: after any sequence of other actions the channel
    still holds the same handler, the handler still has the same target, and
    a [Get] request on the channel is answered from that target. *)
Theorem registration_persists obj descriptor w0 l :
  reachable w0 ->
  registrations w0 !! channel descriptor = None \/
  registrations w0 !! channel descriptor = Some None ->
  inherited (channel descriptor) = false ->
  Forall (fun a => ~ unregisters (channel descriptor) a) l ->
  let w := run l (exec (Register obj descriptor) w0) in
  registrations w !! channel descriptor = Some (Some (length (handlers w0))) /\
  (exists self, handlers w !! length (handlers w0) = Some self /\ target self = obj) /\
  (forall sender propKey correlationId,
     exec (Message (channel descriptor) sender (GetRequest propKey) correlationId) w
     = match get_prop obj propKey with
       | Throw e | Return (VPromise (Rejected e)) =>
           send sender correlationId (ErrorResponse (Errio_stringify e)) w
       | Return (VPromise (Resolved v)) => send sender correlationId (Result (VData v)) w
       | Return (VPromise Pending) => w
       | Return v => send sender correlationId (Result v) w
       end).
Proof.
  intros Hreach Hfree Hinh Hl.
  destruct (registration_kept_run l (channel descriptor) (length (handlers w0)) obj
              (exec (Register obj descriptor) w0) Hl) as [Hreg (self & Hself & Htarget)].
  { simpl. rewrite registerProxy_fresh by (by apply truthy_at_false). simpl.
    apply lookup_insert_eq. }
  { simpl. rewrite registerProxy_fresh by (by apply truthy_at_false). simpl.
    exists (MkHandler obj ∅). by rewrite lookup_app_r, Nat.sub_diag. }
  cbv zeta. split; [done|]. split; [by exists self|].
  intros sender propKey correlationId.
  rewrite (exec_message_registered _ _ _ _ _ _
             (reachable_run l _ (reachable_exec _ _ Hreach)) Hreg).
  unfold listener. cbn [handleRequest]. rewrite (handleGet_Some _ _ _ _ Hself), Htarget.
  destruct (get_prop obj propKey) as [[| [| |] | |]|]; reflexivity.
Qed.

Lemma registration_persists_witness :
  let l := [Message "answers" 7 (SubscribeRequest "answer" None "s1") "c1";
            Register ProxiedClass descriptor; Unregister "channelName"; Destroyed 7;
            Settle 7 "c0" (Resolved DUndefined)] in
  let w := run l (exec (Register bare bare_descriptor) initial) in
  registrations w !! "answers" = Some (Some 0) /\
  (exists self, handlers w !! 0 = Some self /\ target self = bare) /\
  (forall sender propKey correlationId,
     exec (Message "answers" sender (GetRequest propKey) correlationId) w
     = match get_prop bare propKey with
       | Throw e | Return (VPromise (Rejected e)) =>
           send sender correlationId (ErrorResponse (Errio_stringify e)) w
       | Return (VPromise (Resolved v)) => send sender correlationId (Result (VData v)) w
       | Return (VPromise Pending) => w
       | Return v => send sender correlationId (Result v) w
       end).
Proof.
  intros l.
  apply (registration_persists bare bare_descriptor initial l).
  - exists []. reflexivity.
  - left. reflexivity.
  - reflexivity.
  - repeat constructor; simpl; (try tauto); discriminate.
Defined.

(** ** One handler per channel, and what one channel does to another *)

Lemma inv_inj_exec a w : invariant w -> inv_inj w -> inv_inj (exec a w).
Proof.
  intros Hinv Hinj.
  destruct a as [obj descriptor|ch|ch sender request cid|sender|h n|sender cid p]; simpl.
  - destruct (truthy_at (channel descriptor) (registrations w !! channel descriptor))
      eqn:Htruthy.
    + pose proof (registerProxy_refused obj descriptor w Htruthy) as Hrefused.
      by rewrite Hrefused.
    + rewrite registerProxy_fresh by done. intros c1 c2 server. simpl.
      assert (Hold : forall c, c <> channel descriptor ->
                registrations w !! c = Some (Some server) ->
                server <> length (handlers w)).
      { intros c _ Hc. destruct (inv_reg _ Hinv c server Hc) as [_ Hsome].
        apply lookup_lt_is_Some in Hsome. lia. }
      destruct (decide (channel descriptor = c1)) as [<- | Hne1];
        destruct (decide (channel descriptor = c2)) as [<- | Hne2]; [done | | |].
      * rewrite lookup_insert_eq, lookup_insert_ne by done. intros [= <-] H2.
        exfalso. by apply (Hold c2).
      * rewrite lookup_insert_eq, lookup_insert_ne by done. intros H1 [= <-].
        exfalso. by apply (Hold c1).
      * rewrite !lookup_insert_ne by done. apply Hinj.
  - destruct (registrations w !! ch) as [[server|]|] eqn:Hreg.
    + destruct (inv_reg _ Hinv ch server Hreg) as [_ [self Hself]].
      rewrite (unregisterProxy_registered _ _ _ _ Hreg Hself). intros c1 c2 a. simpl.
      destruct (decide (ch = c1)) as [<- | Hne1]; [by rewrite lookup_insert_eq|].
      destruct (decide (ch = c2)) as [<- | Hne2]; [by rewrite (lookup_insert_eq _ ch)|].
      rewrite !lookup_insert_ne by done. apply Hinj.
    + by rewrite unregisterProxy_unregistered_world by (by rewrite Hreg).
    + by rewrite unregisterProxy_unregistered_world by (by rewrite Hreg).
  - intros c1 c2 a.
    rewrite (hs_registrations _ _ (handler_step_foldl _ _ w
               (fun w server => handler_step_listener server sender request cid w))).
    apply Hinj.
  - intros c1 c2 a. rewrite (hs_registrations _ _ (handler_step_destroyed sender w)).
    apply Hinj.
  - intros c1 c2 a.
    rewrite (hs_registrations _ _ (handler_step_rx_step _ _ (rx_step_notify h n w))).
    apply Hinj.
  - intros c1 c2 a. rewrite (step_registrations _ _ (rx_step_late_reply sender cid p w)).
    apply Hinj.
Qed.

Lemma inv_inj_run l w : reachable w -> inv_inj w -> inv_inj (run l w).
Proof.
  revert w. induction l as [|a l IH]; intros w Hreach Hinj; [done|].
  simpl. apply IH; [by apply reachable_exec|].
  apply inv_inj_exec; [by apply reachable_invariant | done].
Qed.

Lemma reachable_inv_inj w : reachable w -> inv_inj w.
Proof.
  intros [l ->]. apply inv_inj_run; [by exists [] |]. intros c1 c2 a. simpl. done.
Qed.

(** X15: every registration gets a handler of its own: in every world the
    module can reach, two channels with an active registration never hold the
    same handler. *)
Theorem channels_have_own_handlers w channel1 channel2 server1 server2 :
  reachable w ->
  registrations w !! channel1 = Some (Some server1) ->
  registrations w !! channel2 = Some (Some server2) ->
  channel1 <> channel2 ->
  server1 <> server2.
Proof.
  intros Hreach H1 H2 Hne Heq. subst server2.
  by apply Hne, (reachable_inv_inj _ Hreach channel1 channel2 server1).
Qed.

Lemma channels_have_own_handlers_witness :
  let w := run [Register ProxiedClass descriptor;
                Register ProxiedClass (MkDescriptor "otherChannel" ∅)] initial in
  (registrations w !! "channelName" = Some (Some 0) /\
   registrations w !! "otherChannel" = Some (Some 1)) /\
  0 <> 1.
Proof.
  intros w. split; [split; reflexivity|].
  apply (channels_have_own_handlers w "channelName" "otherChannel" 0 1).
  - exists [Register ProxiedClass descriptor;
            Register ProxiedClass (MkDescriptor "otherChannel" ∅)].
    vm_compute. reflexivity.
  - reflexivity.
  - reflexivity.
  - discriminate.
Defined.




(** X17: unregistering one channel leaves the rest alone: the entries and
    the listeners of the other channels are as before, every handler but the
    one of the channel is unchanged, no subscription that another handler
    made is cancelled, and nothing is sent. *)
Theorem unregister_leaves_other_handlers channel server w :
  reachable w ->
  registrations w !! channel = Some (Some server) ->
  let w' := exec (Unregister channel) w in
  (forall other, other <> channel ->
     registrations w' !! other = registrations w !! other /\
     listeners w' !! other = listeners w !! other) /\
  (forall other, other <> server -> handlers w' !! other = handlers w !! other) /\
  (forall h s, rx w !! h = Some s -> owner s <> server -> rx w' !! h = Some s) /\
  sent w' = sent w.
Proof.
  intros Hreach Hreg. cbv zeta. simpl.
  destruct (inv_reg _ (reachable_invariant _ Hreach) channel server Hreg) as [_ [self Hself]].
  pose proof (inv_ent _ (reachable_inv_subs _ Hreach)) as Hent.
  rewrite (unregisterProxy_registered _ _ _ _ Hreg Hself). simpl.
  pose proof (rx_step_unsubscribe_all (map_to_list (subscriptions self)).*2 w) as Hstep.
  split; [|split; [|split]].
  - intros other Hne. by rewrite lookup_insert_ne, lookup_delete_ne.
  - intros other Hne. by rewrite list_lookup_alter_ne, (step_handlers _ _ Hstep).
  - intros h s Hs Howner.
    rewrite (unsubscribe_all_rx _ w h (table_values_NoDup _ _ _ Hent Hself)).
    rewrite decide_False; [done|]. intros Hin.
    apply list_elem_of_fmap in Hin as ([id1 h1] & Heq & Hin). simpl in Heq. subst h1.
    apply elem_of_map_to_list in Hin.
    destruct (Hent _ _ _ _ Hself Hin) as (s0 & Hs0 & Howner0 & _). congruence.
  - apply unsubscribe_all_sent.
Qed.

Lemma unregister_leaves_other_handlers_witness :
  let w := run [Register ProxiedClass (MkDescriptor "otherChannel" ∅)] subscribed_world in
  let w' := exec (Unregister "otherChannel") w in
  (forall other, other <> "otherChannel" ->
     registrations w' !! other = registrations w !! other /\
     listeners w' !! other = listeners w !! other) /\
  (forall other, other <> 1 -> handlers w' !! other = handlers w !! other) /\
  (forall h s, rx w !! h = Some s -> owner s <> 1 -> rx w' !! h = Some s) /\
  sent w' = sent w.
Proof.
  intros w.
  apply (unregister_leaves_other_handlers "otherChannel" 1 w).
  - exists [Register ProxiedClass descriptor;
            Message "channelName" 7 (SubscribeRequest "observableHot" None "s1") "c1";
            Register ProxiedClass (MkDescriptor "otherChannel" ∅)].
    vm_compute. reflexivity.
  - reflexivity.
Defined.

(** ** What the ['destroyed'] event leaves alone *)

Lemma run_callbacks_leaves l w h s :
  inv_subs w ->
  rx w !! h = Some s ->
  Forall (fun cb : nat * (nat * string) => cb.2 <> (owner s, observer_id s)) l ->
  rx (run_callbacks l w) !! h = Some s /\
  (forall self, handlers w !! owner s = Some self ->
     exists self', handlers (run_callbacks l w) !! owner s = Some self' /\
                   subscriptions self' !! observer_id s = subscriptions self !! observer_id s).
Proof.
  intros Hinv Hs Hl. revert w Hinv Hs.
  induction Hl as [|cb l Hcb Hl IH]; intros w Hinv Hs; [eauto|].
  simpl.
  assert (Hstep : rx (doUnsubscribe cb.2.1 cb.2.2 w).2 !! h = Some s /\
            forall self, handlers w !! owner s = Some self ->
              exists self', handlers (doUnsubscribe cb.2.1 cb.2.2 w).2 !! owner s = Some self'
                /\ subscriptions self' !! observer_id s = subscriptions self !! observer_id s).
  { destruct (doUnsubscribe_cases cb.2.1 cb.2.2 w)
      as [-> | (self0 & h0 & Hself0 & Hentry0 & ->)]; [eauto|].
    destruct (inv_ent _ Hinv _ _ _ _ Hself0 Hentry0) as (s0 & Hs0 & Howner0 & Hid0).
    split.
    - simpl. rewrite list_lookup_alter_ne; [done|]. intros <-.
      rewrite Hs in Hs0. injection Hs0 as <-. apply Hcb.
      destruct cb as [? [? ?]]. simpl in *. congruence.
    - intros self Hself. simpl.
      destruct (decide (cb.2.1 = owner s)) as [Heq | Hne].
      + rewrite Heq, list_lookup_alter_eq, Hself. eexists. split; [done|]. simpl.
        rewrite lookup_delete_ne; [done|]. intros Hid. apply Hcb.
        destruct cb as [? [? ?]]. simpl in *. congruence.
      + rewrite list_lookup_alter_ne by done. eauto. }
  destruct Hstep as [Hs1 Htab1].
  destruct (IH _ (inv_subs_doUnsubscribe _ _ _ Hinv) Hs1) as [Hs2 Htab2].
  split; [done|]. intros self Hself.
  destruct (Htab1 self Hself) as (self1 & Hself1 & Hentry1).
  destruct (Htab2 self1 Hself1) as (self2 & Hself2 & Hentry2).
  exists self2. split; [done | congruence].
Qed.

(** X18: the ['destroyed'] event of a sender leaves alone every subscription
    that none of the sender's pending callbacks names (by handler and id):
    the subscription is as before and so is the table entry of its id. *)
Theorem destroyed_leaves_unnamed sender w h s :
  reachable w ->
  rx w !! h = Some s ->
  (sender, (owner s, observer_id s)) ∉ once_destroyed w ->
  let w' := exec (Destroyed sender) w in
  rx w' !! h = Some s /\
  (forall self, handlers w !! owner s = Some self ->
     exists self', handlers w' !! owner s = Some self' /\
                   subscriptions self' !! observer_id s = subscriptions self !! observer_id s).
Proof.
  intros Hreach Hs Hnot. cbv zeta. simpl. rewrite destroyed_eq. simpl.
  apply run_callbacks_leaves; [by apply reachable_inv_subs | done |].
  apply Forall_forall. intros [sender' key] Hin Heq. simpl in Heq. subst key.
  apply list_elem_of_filter in Hin as [Hsender Hin]. simpl in Hsender. subst sender'.
  by apply Hnot.
Qed.

Lemma destroyed_leaves_unnamed_witness :
  let w' := exec (Destroyed 8) subscribed_world in
  rx w' !! 0 = Some (MkSubscription false 0 7 "s1" 0) /\
  (forall self, handlers subscribed_world !! 0 = Some self ->
     exists self', handlers w' !! 0 = Some self' /\
                   subscriptions self' !! "s1" = subscriptions self !! "s1").
Proof.
  apply (destroyed_leaves_unnamed 8 subscribed_world 0 (MkSubscription false 0 7 "s1" 0)).
  - exists [Register ProxiedClass descriptor;
            Message "channelName" 7 (SubscribeRequest "observableHot" None "s1") "c1"].
    vm_compute. reflexivity.
  - reflexivity.
  - intros Hin. apply list_elem_of_singleton in Hin. discriminate Hin.
Defined.

(** The condition is needed: a callback stays pending after an [Unsubscribe],
    so when the id is used again, here by sender 8, the destruction of the
    first sender cancels the second sender's subscription. *)
Example stale_callback_cancels_later_subscription :
  let w := run [Message "channelName" 7 (UnsubscribeRequest "s1") "c2";
                Message "channelName" 8 (SubscribeRequest "observableHot" None "s1") "c3"]
             subscribed_world in
  rx w !! 1 = Some (MkSubscription false 0 8 "s1" 0) /\
  rx (exec (Destroyed 7) w) !! 1 = Some (MkSubscription true 1 8 "s1" 0).
Proof. split; reflexivity. Qed.

(** ** Values in order *)

(** X19: the values a stream emits on an open subscription are forwarded to
    the subscriber under the subscription id as [Next] messages, one each and
    in the order of emission; the subscription stays open and no handler
    changes. *)
Theorem values_forwarded_in_order h s values w :
  rx w !! h = Some s -> closed s = false ->
  let w' := run ((fun v => Emit h (OnNext v)) <$> values) w in
  sent w'
  = (sent w ++ ((fun v => (observer_sender s, observer_id s, Next v)) <$> values))%list /\
  rx w' = rx w /\
  handlers w' = handlers w.
Proof.
  intros Hs Hopen. cbv zeta. revert w Hs.
  induction values as [|v values IH]; intros w Hs.
  - simpl. by rewrite app_nil_r.
  - rewrite !fmap_cons.
    change (run (Emit h (OnNext v) :: ((fun v => Emit h (OnNext v)) <$> values)) w)
      with (run ((fun v => Emit h (OnNext v)) <$> values) (notify h (OnNext v) w)).
    rewrite (notify_open h s (OnNext v) w Hs Hopen). cbn [terminal message_of].
    destruct (IH (send (observer_sender s) (observer_id s) (Next v) w) Hs)
      as (Hsent & Hrx & Hhandlers).
    rewrite Hsent, Hrx, Hhandlers. simpl. by rewrite <- app_assoc.
Qed.

Lemma values_forwarded_in_order_witness :
  let w' := run ((fun v => Emit 0 (OnNext v)) <$> [DNum 0; DNum 1]) subscribed_world in
  sent w'
  = (sent subscribed_world ++ ((fun v => (7, "s1", Next v)) <$> [DNum 0; DNum 1]))%list /\
  rx w' = rx subscribed_world /\
  handlers w' = handlers subscribed_world.
Proof.
  apply (values_forwarded_in_order 0 (MkSubscription false 0 7 "s1" 0) [DNum 0; DNum 1]
           subscribed_world); reflexivity.
Defined.

(** ** Listeners *)

(** X20: the transport never gathers listeners: in every world the module
    can reach, a channel with an active registration has exactly one
    listener, the one of its handler, and a channel without one has none,
    however often channels were registered and unregistered. *)
Theorem one_listener_per_channel w ch :
  reachable w ->
  listeners w !! ch
  = match registrations w !! ch with
    | Some (Some server) => Some [server]
    | _ => None
    end.
Proof.
  intros Hreach. pose proof (reachable_invariant _ Hreach) as Hinv.
  destruct (registrations w !! ch) as [[server|]|] eqn:Hreg.
  - by destruct (inv_reg _ Hinv ch server Hreg).
  - apply (inv_lis _ Hinv). by rewrite Hreg.
  - apply (inv_lis _ Hinv). by rewrite Hreg.
Qed.

Lemma one_listener_per_channel_witness :
  let w := run [Unregister "channelName"; Register ProxiedClass descriptor;
                Unregister "channelName"; Register ProxiedClass descriptor] registered_world in
  listeners w !! "channelName"
  = match registrations w !! "channelName" with
    | Some (Some server) => Some [server]
    | _ => None
    end.
Proof.
  intros w. apply (one_listener_per_channel w "channelName").
  exists [Register ProxiedClass descriptor; Unregister "channelName";
          Register ProxiedClass descriptor; Unregister "channelName";
          Register ProxiedClass descriptor].
  vm_compute. reflexivity.
Defined.

(** ** Names that the two tables inherit *)

(** X22: a channel or a subscription id named like a property that a plain
    object inherits from [Object.prototype] is taken for an entry that
    exists. In every world the module can reach, [registerProxy] on such a
    channel throws the error of line 17 and changes nothing; on a registered
    channel a [Subscribe] request with such an id is answered with the error
    of line 89, whatever the member, and an [Unsubscribe] request with such an
    id with the [TypeError] of line 122; the reply is all either causes. *)
Theorem inherited_names_are_taken obj descriptor ch server sender propKey args
    subscriptionId correlationId w :
  reachable w ->
  (inherited (channel descriptor) = true ->
   registerProxy obj descriptor w
   = (Throw (Error ("Proxy object has already been registered on channel "
                    ++ channel descriptor)), w))
  /\
  (registrations w !! ch = Some (Some server) ->
   inherited subscriptionId = true ->
   exec (Message ch sender (SubscribeRequest propKey args subscriptionId) correlationId) w
   = send sender correlationId
       (ErrorResponse
          (Errio_stringify
             (Error ("A subscription with Id [" ++ subscriptionId ++ "] already exists")))) w
   /\
   exec (Message ch sender (UnsubscribeRequest subscriptionId) correlationId) w
   = send sender correlationId
       (ErrorResponse
          (Errio_stringify (TypeError "subscription.unsubscribe is not a function"))) w).
Proof.
  intros Hreach. pose proof (reachable_invariant _ Hreach) as Hinv. split.
  - intros Hinh. apply registerProxy_inherited; [|done]. by apply (inv_cha _ Hinv).
  - intros Hreg Hinh.
    destruct (inv_reg _ Hinv ch server Hreg) as [_ [self Hself]].
    rewrite !(exec_message_registered _ _ _ _ _ _ Hreach Hreg). unfold listener.
    cbn [handleRequest]. split.
    + by rewrite (handleSubscribe_taken server self propKey subscriptionId sender w Hself
                    (or_intror Hinh)).
    + by rewrite (handleUnsubscribe_inherited server self subscriptionId w Hself
                    (inv_own _ Hinv server self subscriptionId Hself Hinh) Hinh).
Qed.

Lemma inherited_names_are_taken_witness :
  registerProxy bare (MkDescriptor "constructor" ∅) registered_world
  = (Throw (Error "Proxy object has already been registered on channel constructor"),
     registered_world)
  /\
  exec (Message "channelName" 7 (SubscribeRequest "observableProp" None "toString") "c1")
    registered_world
  = send 7 "c1"
      (ErrorResponse
         (Errio_stringify (Error "A subscription with Id [toString] already exists")))
      registered_world
  /\
  exec (Message "channelName" 7 (UnsubscribeRequest "toString") "c1") registered_world
  = send 7 "c1"
      (ErrorResponse
         (Errio_stringify (TypeError "subscription.unsubscribe is not a function")))
      registered_world.
Proof.
  assert (Hreach : reachable registered_world)
    by (exists [Register ProxiedClass descriptor]; reflexivity).
  split.
  - apply (proj1 (inherited_names_are_taken bare (MkDescriptor "constructor" ∅) "channelName"
                    0 7 "observableProp" None "toString" "c1" registered_world Hreach)).
    reflexivity.
  - apply (proj2 (inherited_names_are_taken bare (MkDescriptor "constructor" ∅) "channelName"
                    0 7 "observableProp" None "toString" "c1" registered_world Hreach));
      reflexivity.
Defined.
